(** * LumeDB: a file-backed JSON document store (src/index.js)

    A shallow embedding of the class [LumeDB]: the document tree, the
    dot-path helpers [getNestedValue], [setNestedValue] and
    [deleteNestedValue], the array operations, and the load / save
    protocol over the three files of the store.

    Modelling conventions.
    - A JavaScript value of the document is a [value]; [undefined] is the
      [None] of [option value].  Numbers are integers (of a magnitude that
      a double holds exactly): the store does no arithmetic on stored
      numbers, it only tests them for truthiness and uses a priority as an
      index.
    - Objects are association lists in property order (integer keys first, in
      ascending order, then the other keys in insertion order).  Arrays keep
      their holes and their non-index properties.
    - Only the properties that a value holds itself are represented.
      JavaScript answers a key that a value does not hold from its
      prototype chain ([o.toString], [[1].push], [(5).toFixed]); these
      members, functions shared by all values of a kind, are not part of
      the model.  The statements therefore keep their paths on keys for
      which the two readings agree: [own_key] names the keys clear of
      [Object.prototype], which is all that a Map inherits; [plain_key]
      and [reaches_container] extend this to Sequences and scalars.
    - The class body is strict mode code: a property write on a primitive
      and the removal of a non-configurable property raise a TypeError.
    - Mutation in place is rendered by rebuilding the document along the
      path that was followed; documents are trees (no value is shared
      between two places), as [JSON.parse] builds them.  A statement that
      depends on this is made of the instance that the constructor
      returns.
    - [JSON.parse], [JSON.stringify] and the storage medium are the fields
      of a [Platform]; theorems hold for every platform, and the examples
      run on [ref_platform]. *)

From Stdlib Require Import String Ascii List ZArith Lia Bool Arith DecimalString.
From Stdlib Require DecimalFacts DecimalPos DecimalN.
Import ListNotations.
Local Open Scope string_scope.
Local Open Scope list_scope.

(** ** Values *)

#[local] Set Warnings "-register-all".

Inductive value : Type :=
| VNull
| VBool (b : bool)
| VNum (n : Z)
| VStr (s : string)
| VArr (items : list (option value)) (extra : list (string * value))
| VObj (props : list (string * value)).

(** What a JavaScript statement can raise here: a TypeError of the language,
    the SyntaxError of [JSON.parse], an [Error] built by the class with its
    message, or a missing file. *)
Inductive exn : Type :=
| TypeError
| SyntaxError
| Error (message : string)
| ENOENT.

(** Result of a computation on values.  [Outside] marks the one step whose
    result depends on host conversions that are not modelled: assigning the
    [length] of an Array. *)
Inductive res (A : Type) : Type :=
| Val (a : A)
| Raise (e : exn)
| Outside.
Arguments Val {A} a.
Arguments Raise {A} e.
Arguments Outside {A}.

Definition res_bind {A B : Type} (r : res A) (k : A -> res B) : res B :=
  match r with
  | Val a => k a
  | Raise e => Raise e
  | Outside => Outside
  end.

Notation "'let!' x ':=' r 'in' k" := (res_bind r (fun x => k))
  (at level 10, x name, r at level 200, k at level 200).

Definition isSome {A : Type} (o : option A) : bool :=
  match o with Some _ => true | None => false end.

(** ** Property keys *)

Definition digit_of (c : ascii) : option N :=
  let n := N_of_ascii c in
  if ((48 <=? n) && (n <=? 57))%N then Some (n - 48)%N else None.

Fixpoint digits_value (s : string) (acc : N) : option N :=
  match s with
  | EmptyString => Some acc
  | String c r =>
      match digit_of c with
      | Some d => digits_value r (10 * acc + d)%N
      | None => None
      end
  end.

(** An array index is the canonical decimal numeral of an integer below
    2^32 - 1. *)
Definition array_index (k : string) : option nat :=
  match k with
  | EmptyString => None
  | String c r =>
      if (Ascii.eqb c "0" && negb (String.eqb r EmptyString))%bool then None
      else match digits_value k 0 with
           | Some n => if (n <? 4294967295)%N then Some (N.to_nat n) else None
           | None => None
           end
  end.

(** Names that every plain object inherits from [Object.prototype]. *)
Definition object_prototype_names : list string :=
  [ "constructor"; "__proto__"; "hasOwnProperty"; "isPrototypeOf";
    "propertyIsEnumerable"; "toLocaleString"; "toString"; "valueOf";
    "__defineGetter__"; "__defineSetter__"; "__lookupGetter__";
    "__lookupSetter__" ].

(** The keys that stay clear of inherited members on a plain object.
    Arrays, strings, numbers and booleans inherit further members, which
    this test does not screen. *)
Definition own_key (k : string) : bool :=
  negb (existsb (String.eqb k) object_prototype_names).

(** ** Association lists of properties *)

Section Assoc.
Context {A : Type}.

Fixpoint assoc_get (k : string) (ps : list (string * A)) : option A :=
  match ps with
  | [] => None
  | (k', x) :: rest => if String.eqb k k' then Some x else assoc_get k rest
  end.

Fixpoint assoc_replace (k : string) (x : A) (ps : list (string * A)) :=
  match ps with
  | [] => []
  | (k', y) :: rest =>
      if String.eqb k k' then (k', x) :: rest
      else (k', y) :: assoc_replace k x rest
  end.

Fixpoint assoc_remove (k : string) (ps : list (string * A)) :=
  match ps with
  | [] => []
  | (k', y) :: rest =>
      if String.eqb k k' then rest else (k', y) :: assoc_remove k rest
  end.

(** A new integer key goes among the leading integer keys, in ascending
    order. *)
Fixpoint insert_index (i : nat) (k : string) (x : A) (ps : list (string * A)) :=
  match ps with
  | [] => [(k, x)]
  | (k', y) :: rest =>
      match array_index k' with
      | Some j => if (j <? i)%nat then (k', y) :: insert_index i k x rest
                  else (k, x) :: ps
      | None => (k, x) :: ps
      end
  end.

(** [o[k] = x] on the properties of a plain object. *)
Definition obj_put (k : string) (x : A) (ps : list (string * A)) :=
  match assoc_get k ps with
  | Some _ => assoc_replace k x ps
  | None =>
      match array_index k with
      | Some i => insert_index i k x ps
      | None => ps ++ [(k, x)]
      end
  end.

(** [a[k] = x] on the non-index properties of an array. *)
Definition extra_put (k : string) (x : A) (ps : list (string * A)) :=
  match assoc_get k ps with
  | Some _ => assoc_replace k x ps
  | None => ps ++ [(k, x)]
  end.
End Assoc.

(** ** Array items, with holes *)

Definition arr_get (items : list (option value)) (i : nat) : option value :=
  match nth_error items i with
  | Some (Some v) => Some v
  | _ => None
  end.

Fixpoint replace_nth {A : Type} (i : nat) (x : A) (l : list A) : list A :=
  match l, i with
  | [], _ => []
  | _ :: t, O => x :: t
  | h :: t, S j => h :: replace_nth j x t
  end.

(** [a[i] = x]: inside the array the slot is overwritten, beyond its end the
    array grows and the slots in between are holes. *)
Definition arr_set (items : list (option value)) (i : nat) (x : value) :=
  if (i <? length items)%nat then replace_nth i (Some x) items
  else items ++ repeat None (i - length items) ++ [Some x].

(** [delete a[i]] leaves a hole; the length is unchanged. *)
Definition arr_unset (items : list (option value)) (i : nat) :=
  replace_nth i None items.

Definition filled (items : list (option value)) : nat :=
  length (filter isSome items).

(** ** Property access *)

Definition truthy (v : value) : bool :=
  match v with
  | VNull => false
  | VBool b => b
  | VNum n => negb (n =? 0)%Z
  | VStr s => negb (String.eqb s EmptyString)
  | VArr _ _ | VObj _ => true
  end.

(** [v[k]] for a value [v] other than null, among the properties that [v]
    holds itself: the keys of a Map; the elements, the [length] and the
    other properties of a Sequence; the characters and the [length] of a
    string.  A key that [v] only inherits is answered [None] here. *)
Definition get_prop (v : value) (k : string) : option value :=
  match v with
  | VObj props => assoc_get k props
  | VArr items extra =>
      match array_index k with
      | Some i => arr_get items i
      | None =>
          if String.eqb k "length" then Some (VNum (Z.of_nat (length items)))
          else assoc_get k extra
      end
  | VStr s =>
      match array_index k with
      | Some i =>
          match String.get i s with
          | Some c => Some (VStr (String c EmptyString))
          | None => None
          end
      | None =>
          if String.eqb k "length" then Some (VNum (Z.of_nat (String.length s)))
          else None
      end
  | VNull | VBool _ | VNum _ => None
  end.

(** [current[k]] where [current] may be undefined or null. *)
Definition read_prop (current : option value) (k : string) : res (option value) :=
  match current with
  | None | Some VNull => Raise TypeError
  | Some v => Val (get_prop v k)
  end.

(** [k in v], among the properties that [v] holds itself (an inherited
    member, such as [push] in an array, is answered [false] here). *)
Definition has_property (k : string) (v : value) : res bool :=
  match v with
  | VObj props => Val (isSome (assoc_get k props))
  | VArr items extra =>
      Val (match array_index k with
           | Some i => isSome (arr_get items i)
           | None => (String.eqb k "length" || isSome (assoc_get k extra))%bool
           end)
  | VNull | VBool _ | VNum _ | VStr _ => Raise TypeError
  end.

(** [v[k] = x] in strict mode. *)
Definition put_prop (v : value) (k : string) (x : value) : res value :=
  match v with
  | VObj props => Val (VObj (obj_put k x props))
  | VArr items extra =>
      match array_index k with
      | Some i => Val (VArr (arr_set items i x) extra)
      | None =>
          if String.eqb k "length" then Outside
          else Val (VArr items (extra_put k x extra))
      end
  | VNull | VBool _ | VNum _ | VStr _ => Raise TypeError
  end.

(** [delete v[k]] in strict mode, for [v] other than undefined. *)
Definition delete_prop (v : value) (k : string) : res value :=
  match v with
  | VObj props => Val (VObj (assoc_remove k props))
  | VArr items extra =>
      match array_index k with
      | Some i => Val (VArr (arr_unset items i) extra)
      | None =>
          if String.eqb k "length" then Raise TypeError
          else Val (VArr items (assoc_remove k extra))
      end
  | VStr _ =>
      match get_prop v k with
      | Some _ => Raise TypeError
      | None => Val v
      end
  | VBool _ | VNum _ => Val v
  | VNull => Raise TypeError
  end.

(** [Object.keys(v).length]. *)
Definition own_key_count (v : option value) : res nat :=
  match v with
  | None | Some VNull => Raise TypeError
  | Some (VObj props) => Val (length props)
  | Some (VArr items extra) => Val (filled items + length extra)
  | Some (VStr s) => Val (String.length s)
  | Some (VBool _) | Some (VNum _) => Val 0
  end.

(** The value at property [k] of a container is replaced: what the container
    shows after the object it holds there was mutated in place. *)
Definition prop_replace (v : value) (k : string) (x : value) : value :=
  match v with
  | VObj props => VObj (assoc_replace k x props)
  | VArr items extra =>
      match array_index k with
      | Some i => VArr (replace_nth i (Some x) items) extra
      | None => VArr items (assoc_replace k x extra)
      end
  | _ => v
  end.

(** The document after the object reached from [obj] along [path] has become
    [new]. *)
Fixpoint store_at (obj : value) (path : list string) (new : value) : value :=
  match path with
  | [] => new
  | k :: rest =>
      match get_prop obj k with
      | Some child => prop_replace obj k (store_at child rest new)
      | None => obj
      end
  end.

(** ** Paths *)

(** [path.split('.')]: never empty. *)
Fixpoint split_dot (s : string) : list string :=
  match s with
  | EmptyString => [EmptyString]
  | String c rest =>
      if Ascii.eqb c "." then EmptyString :: split_dot rest
      else match split_dot rest with
           | seg :: segs => String c seg :: segs
           | [] => [String c EmptyString]
           end
  end.

(** [const lastKey = keys.pop()]: the last key, and [keys] without it. *)
Definition pop (keys : list string) : list string * string :=
  (removelast keys, last keys EmptyString).

(** One step of the reduce of [getNestedValue]:
    [current && current[key] !== undefined ? current[key] : undefined]. *)
Definition get_step (current : option value) (key : string) : option value :=
  match current with
  | Some c => if truthy c then get_prop c key else None
  | None => None
  end.

Definition getNestedValue (obj : value) (path : string) : option value :=
  fold_left get_step (split_dot path) (Some obj).

(** The reduce of [setNestedValue] followed by [target[lastKey] = value].
    A step that creates an empty object is only followed by steps on fresh
    objects, which cannot raise: when the function raises, [obj] is as it
    was. *)
Fixpoint set_descend (current : value) (keys : list string) (lastKey : string)
    (x : value) : res value :=
  match keys with
  | [] => put_prop current lastKey x
  | key :: rest =>
      let! present := has_property key current in
      let! current' :=
        (if present : bool then Val current else put_prop current key (VObj [])) in
      match get_prop current' key with
      | Some child =>
          let! child' := set_descend child rest lastKey x in
          Val (prop_replace current' key child')
      | None => Raise TypeError
      end
  end.

Definition setNestedValue (obj : value) (path : string) (x : value) : res value :=
  let (keys, lastKey) := pop (split_dot path) in
  set_descend obj keys lastKey x.

(** [keys.reduce((current, k) => current[k], obj)]. *)
Fixpoint reduce_read (keys : list string) (current : option value)
    : res (option value) :=
  match keys with
  | [] => Val current
  | k :: rest => let! next := read_prop current k in reduce_read rest next
  end.

(** ** Array helpers *)

(** [array.splice(start, deleteCount)] on the items. *)
Definition splice (start deleteCount : Z) (items : list (option value))
    : list (option value) :=
  let len := Z.of_nat (length items) in
  let actualStart :=
    if (start <? 0)%Z then Z.max (len + start) 0 else Z.min start len in
  let actualDeleteCount := Z.min (Z.max deleteCount 0) (len - actualStart) in
  firstn (Z.to_nat actualStart) items
    ++ skipn (Z.to_nat (actualStart + actualDeleteCount)) items.

(** [_.isEqual]: structural equality; the properties of two objects are
    compared whatever their order. *)
Fixpoint isEqual (a b : value) {struct a} : bool :=
  match a, b with
  | VNull, VNull => true
  | VBool x, VBool y => Bool.eqb x y
  | VNum x, VNum y => (x =? y)%Z
  | VStr x, VStr y => String.eqb x y
  | VArr xs _, VArr ys _ =>
      (fix items_eq (l1 l2 : list (option value)) {struct l1} : bool :=
         match l1, l2 with
         | [], [] => true
         | Some x :: t1, Some y :: t2 => isEqual x y && items_eq t1 t2
         | None :: t1, None :: t2 => items_eq t1 t2
         | _, _ => false
         end) xs ys
  | VObj ps, VObj qs =>
      (length ps =? length qs)%nat &&
      (fix props_eq (l : list (string * value)) : bool :=
         match l with
         | [] => true
         | (k, x) :: t =>
             match assoc_get k qs with
             | Some y => isEqual x y
             | None => false
             end && props_eq t
         end) ps
  | _, _ => false
  end.

(** [array.filter(item => !_.isEqual(item, value))]: holes are skipped, the
    result is a new dense array. *)
Fixpoint filter_out (x : value) (items : list (option value))
    : list (option value) :=
  match items with
  | [] => []
  | None :: rest => filter_out x rest
  | Some item :: rest =>
      if isEqual item x then filter_out x rest
      else Some item :: filter_out x rest
  end.

(** ** The store *)

(** The three files of the store: [filePath], [backupPath] and the
    [tempPath] of [save]. *)
Inductive file : Type := MainFile | BackupFile | TempFile.

(** The database folder: the content of each file, when it exists. *)
Record FS : Type := mkFS {
  main_file : option string;
  backup_file : option string;
  temp_file : option string
}.

Definition fs_get (d : FS) (f : file) : option string :=
  match f with
  | MainFile => main_file d
  | BackupFile => backup_file d
  | TempFile => temp_file d
  end.

Definition fs_set (d : FS) (f : file) (c : option string) : FS :=
  match f with
  | MainFile => mkFS c (backup_file d) (temp_file d)
  | BackupFile => mkFS (main_file d) c (temp_file d)
  | TempFile => mkFS (main_file d) (backup_file d) c
  end.

(** The fields of an instance that the operations read or write. *)
Record LumeDB : Type := mkDB {
  data : value;
  readable : bool;
  noBlankData : bool;
  disk : FS
}.

(** What the host provides: the JSON codec ([None] when [JSON.parse] raises
    its SyntaxError; the first argument of [JSON_stringify] is the indent)
    and the storage medium, [stored f s] being the bytes found in [f] after
    [s] was written to it ([s] itself on a reliable medium). *)
Class Platform : Type := {
  JSON_parse : string -> option value;
  JSON_stringify : nat -> value -> string;
  stored : file -> string -> string
}.

(** A statement run on an instance returns, raises, or leaves the model;
    the instance is kept in the first two cases, with what was mutated
    before a raise. *)
Inductive outcome (A : Type) : Type :=
| Ok (a : A) (db : LumeDB)
| Throw (e : exn) (db : LumeDB)
| Beyond.
Arguments Ok {A} a db.
Arguments Throw {A} e db.
Arguments Beyond {A}.

Definition M (A : Type) : Type := LumeDB -> outcome A.

Definition ret {A : Type} (a : A) : M A := fun db => Ok a db.

Definition bind {A B : Type} (m : M A) (k : A -> M B) : M B :=
  fun db =>
    match m db with
    | Ok a db' => k a db'
    | Throw e db' => Throw e db'
    | Beyond => Beyond
    end.

Definition throw {A : Type} (e : exn) : M A := fun db => Throw e db.

(** [try { body } catch (error) { handler }]. *)
Definition try_catch {A : Type} (body : M A) (handler : exn -> M A) : M A :=
  fun db =>
    match body db with
    | Ok a db' => Ok a db'
    | Throw e db' => handler e db'
    | Beyond => Beyond
    end.

Definition lift {A : Type} (r : res A) : M A :=
  fun db =>
    match r with
    | Val a => Ok a db
    | Raise e => Throw e db
    | Outside => Beyond
    end.

Notation "x <- c ;; k" := (bind c (fun x => k))
  (at level 61, c at next level, right associativity).
Notation "c ;; k" := (bind c (fun _ => k))
  (at level 61, right associativity).

Definition this_data : M value := fun db => Ok (data db) db.
Definition this_readable : M bool := fun db => Ok (readable db) db.
Definition this_noBlankData : M bool := fun db => Ok (noBlankData db) db.

(** [this.data = d]. *)
Definition set_data (d : value) : M unit :=
  fun db => Ok tt (mkDB d (readable db) (noBlankData db) (disk db)).

Definition set_disk (d : FS) : M unit :=
  fun db => Ok tt (mkDB (data db) (readable db) (noBlankData db) d).

(** The state of an outcome, when the model has one. *)
Definition state_of {A : Type} (o : outcome A) : option LumeDB :=
  match o with
  | Ok _ db | Throw _ db => Some db
  | Beyond => None
  end.

Section Store.
Context {P : Platform}.

(** *** fs *)

Definition existsSync (f : file) : M bool :=
  fun db => Ok (isSome (fs_get (disk db) f)) db.

Definition readFileSync (f : file) : M string :=
  fun db =>
    match fs_get (disk db) f with
    | Some s => Ok s db
    | None => Throw ENOENT db
    end.

Definition writeFileSync (f : file) (s : string) : M unit :=
  fun db => set_disk (fs_set (disk db) f (Some (stored f s))) db.

(** [fs.moveSync(src, dest, { overwrite: true })]. *)
Definition moveSync (src dest : file) : M unit :=
  fun db =>
    match fs_get (disk db) src with
    | Some s => set_disk (fs_set (fs_set (disk db) dest (Some s)) src None) db
    | None => Throw ENOENT db
    end.

(** *** Persistence *)

Definition JSON_parse_or_raise (s : string) : M value :=
  match JSON_parse s with
  | Some v => ret v
  | None => throw SyntaxError
  end.

(** [JSON.parse(data || '{}')]. *)
Definition parseData (s : string) : M value :=
  JSON_parse_or_raise (if String.eqb s EmptyString then "{}" else s).

Definition stringifyData (d : value) : M string :=
  r <- this_readable ;;
  ret (JSON_stringify (if r then 2 else 0)%nat d).

Definition validateData (s : string) : M unit :=
  try_catch
    (_ <- JSON_parse_or_raise s ;; ret tt)
    (fun _ => throw (Error "Invalid JSON format")).

Definition createBackup : M unit :=
  d <- this_data ;;
  s <- stringifyData d ;;
  writeFileSync BackupFile s.

Definition save : M unit :=
  d <- this_data ;;
  s <- stringifyData d ;;
  writeFileSync TempFile s ;;
  back <- readFileSync TempFile ;;
  validateData back ;;
  moveSync TempFile MainFile ;;
  createBackup.

Definition load_from_backup : M unit :=
  backupData <- readFileSync BackupFile ;;
  validateData backupData ;;
  d <- parseData backupData ;;
  set_data d ;;
  save.

Definition loadDatabase : M unit :=
  try_catch
    (main <- existsSync MainFile ;;
     if main : bool then
       s <- readFileSync MainFile ;;
       validateData s ;;
       d <- parseData s ;;
       set_data d ;;
       createBackup
     else
       bak <- existsSync BackupFile ;;
       if bak : bool then load_from_backup else save)
    (fun _ =>
       bak <- existsSync BackupFile ;;
       if bak : bool then load_from_backup
       else set_data (VObj []) ;; save).

(** The folder is created when missing; in the model it always exists. *)
Definition initializeDatabase : M unit := loadDatabase.

(** The options of the constructor that the operations depend on. *)
Record Options : Type := mkOptions {
  opt_readable : bool;
  opt_noBlankData : bool
}.

(** [new LumeDB(options)] over a database folder.  The backup timer that
    the constructor starts is not part of the model. *)
Definition new_LumeDB (options : Options) (folder : FS) : outcome unit :=
  initializeDatabase
    (mkDB (VObj []) (opt_readable options) (opt_noBlankData options) folder).

(** *** Path helpers on the document of the instance *)

(** The body of the callback of the pruning loop.  [keys.reverse()]
    reverses [keys] in place, so the [keys] that the callback slices is
    the reversed array [rkeys]. *)
Definition prune_step (rkeys : list string) (index : nat) (key : string)
    : M unit :=
  obj <- this_data ;;
  let ppath := firstn (length rkeys - (index + 1)) rkeys in
  parent <- lift (reduce_read ppath (Some obj)) ;;
  match parent with
  | Some p =>
      if truthy p then
        n <- lift (own_key_count (get_prop p key)) ;;
        if (n =? 0)%nat then
          p' <- lift (delete_prop p key) ;;
          set_data (store_at obj ppath p')
        else ret tt
      else ret tt
  | None => ret tt
  end.

(** [array.forEach((x, index) => f)], from [index] on. *)
Fixpoint forEach {A : Type} (f : nat -> A -> M unit) (index : nat)
    (l : list A) : M unit :=
  match l with
  | [] => ret tt
  | x :: rest => f index x ;; forEach f (S index) rest
  end.

(** [deleteNestedValue(this.data, path)]. *)
Definition deleteNestedValue (path : string) : M bool :=
  let (keys, lastKey) := pop (split_dot path) in
  obj <- this_data ;;
  match fold_left get_step keys (Some obj) with
  | Some target =>
      if (truthy target && isSome (get_prop target lastKey))%bool then
        target' <- lift (delete_prop target lastKey) ;;
        set_data (store_at obj keys target') ;;
        blank <- this_noBlankData ;;
        (if blank : bool then
           let rkeys := rev keys in forEach (prune_step rkeys) 0 rkeys
         else ret tt) ;;
        ret true
      else ret false
  | None => ret false
  end.

(** *** Synchronous methods *)

Definition set (key : string) (x : value) : M value :=
  obj <- this_data ;;
  obj' <- lift (setNestedValue obj key x) ;;
  set_data obj' ;;
  save ;;
  ret x.

Definition fetch (key : string) : M (option value) :=
  obj <- this_data ;;
  ret (getNestedValue obj key).

Definition get (key : string) : M (option value) := fetch key.

Definition delete (key : string) : M bool :=
  result <- deleteNestedValue key ;;
  save ;;
  ret result.

Definition has (key : string) : M bool :=
  obj <- this_data ;;
  ret (isSome (getNestedValue obj key)).

Definition deleteAll : M bool :=
  set_data (VObj []) ;;
  save ;;
  ret true.

Definition all : M value := this_data.

(** *** Array methods (async: a raise is the rejection of the promise) *)

(** [this.get(key) || []]. *)
Definition or_empty_array (found : option value) : value :=
  match found with
  | Some v => if truthy v then v else VArr [] []
  | None => VArr [] []
  end.

(** When [this.get(key)] is truthy, [array] is the very object that the
    document holds at [key]: the document shows what [push], [splice] or
    an index assignment did to it, before [set] is called. *)
Definition in_place (key : string) (found : option value) (array' : value)
    : M unit :=
  match found with
  | Some v =>
      if truthy v then
        obj <- this_data ;;
        set_data (store_at obj (split_dot key) array')
      else ret tt
  | None => ret tt
  end.

Definition push (key : string) (x : value) : M value :=
  found <- get key ;;
  match or_empty_array found with
  | VArr items extra =>
      let array' := VArr (items ++ [Some x]) extra in
      in_place key found array' ;;
      set key array' ;;
      ret array'
  | _ => throw (Error "Target is not an array")
  end.

Definition unpush (key : string) (x : value) : M value :=
  found <- get key ;;
  match or_empty_array found with
  | VArr items _ =>
      let newArray := VArr (filter_out x items) [] in
      set key newArray ;;
      ret newArray
  | _ => throw (Error "Target is not an array")
  end.

Definition delByPriority (key : string) (priority : Z) : M value :=
  found <- get key ;;
  match or_empty_array found with
  | VArr items extra =>
      let array' := VArr (splice (priority - 1) 1 items) extra in
      in_place key found array' ;;
      set key array' ;;
      ret array'
  | _ => throw (Error "Target is not an array")
  end.

(** The property key of a number: its decimal numeral (integers below
    10^21 in magnitude). *)
Definition number_key (n : Z) : string := NilZero.string_of_int (Z.to_int n).

Definition setByPriority (key : string) (x : value) (priority : Z)
    : M value :=
  found <- get key ;;
  match or_empty_array found with
  | VArr _ _ as array =>
      array' <- lift (put_prop array (number_key (priority - 1)) x) ;;
      in_place key found array' ;;
      set key array' ;;
      ret array'
  | _ => throw (Error "Target is not an array")
  end.
End Store.

(** ** A reference platform

    A JSON codec for the fragment of JSON that the model can hold (integer
    numbers, strings of ASCII characters) over a reliable medium: on a text
    of the fragment [ref_parse] answers as [JSON.parse] does.  It is the
    platform on which the concrete runs below are evaluated. *)
Module RefPlatform.

Definition dquote : ascii := ascii_of_nat 34.
Definition backslash : ascii := ascii_of_nat 92.
Definition nl : string := String (ascii_of_nat 10) EmptyString.

Definition quoted (s : string) : string :=
  String dquote (s ++ String dquote EmptyString)%string.

(** *** JSON.stringify *)

Definition hex_digit (n : N) : ascii :=
  ascii_of_N (if (n <? 10)%N then 48 + n else 87 + n)%N.

Definition escape_char (c : ascii) : string :=
  let n := N_of_ascii c in
  if Ascii.eqb c dquote then String backslash (String dquote EmptyString)
  else if Ascii.eqb c backslash then String backslash (String backslash EmptyString)
  else if (n =? 8)%N then String backslash "b"
  else if (n =? 9)%N then String backslash "t"
  else if (n =? 10)%N then String backslash "n"
  else if (n =? 12)%N then String backslash "f"
  else if (n =? 13)%N then String backslash "r"
  else if (n <? 32)%N then
    String backslash
      (String "u" (String "0" (String "0"
        (String (hex_digit (n / 16)) (String (hex_digit (n mod 16)) EmptyString)))))
  else String c EmptyString.

Fixpoint escape (s : string) : string :=
  match s with
  | EmptyString => EmptyString
  | String c r => (escape_char c ++ escape r)%string
  end.

Fixpoint pad (n : nat) : string :=
  match n with
  | O => EmptyString
  | S m => String " " (pad m)
  end.

Fixpoint stringify (gap level : nat) (v : value) {struct v} : string :=
  let inner := if (gap =? 0)%nat then EmptyString else (nl ++ pad (gap * S level))%string in
  let outer := if (gap =? 0)%nat then EmptyString else (nl ++ pad (gap * level))%string in
  let colon := if (gap =? 0)%nat then ":" else ": " in
  match v with
  | VNull => "null"
  | VBool true => "true"
  | VBool false => "false"
  | VNum n => number_key n
  | VStr s => quoted (escape s)
  | VArr [] _ => "[]"
  | VArr items _ =>
      ("[" ++ inner ++
       (fix elements (l : list (option value)) : string :=
          match l with
          | [] => EmptyString
          | x :: rest =>
              let item := match x with
                          | Some e => stringify gap (S level) e
                          | None => "null"
                          end in
              match rest with
              | [] => item
              | _ :: _ => item ++ "," ++ inner ++ elements rest
              end
          end) items
       ++ outer ++ "]")%string
  | VObj [] => "{}"
  | VObj props =>
      ("{" ++ inner ++
       (fix members (l : list (string * value)) : string :=
          match l with
          | [] => EmptyString
          | (k, e) :: rest =>
              let item := quoted (escape k) ++ colon ++ stringify gap (S level) e in
              match rest with
              | [] => item
              | _ :: _ => item ++ "," ++ inner ++ members rest
              end
          end) props
       ++ outer ++ "}")%string
  end.

Definition ref_stringify (gap : nat) (v : value) : string := stringify gap 0 v.

(** *** JSON.parse *)

Definition is_ws (c : ascii) : bool :=
  let n := N_of_ascii c in
  ((n =? 32) || (n =? 9) || (n =? 10) || (n =? 13))%N.

Fixpoint skip_ws (s : string) : string :=
  match s with
  | String c r => if is_ws c then skip_ws r else s
  | EmptyString => s
  end.

(** The rest of [s] after the prefix [p]. *)
Fixpoint after (p s : string) : option string :=
  match p, s with
  | EmptyString, _ => Some s
  | String a p', String b s' => if Ascii.eqb a b then after p' s' else None
  | String _ _, EmptyString => None
  end.

Fixpoint take_digits (s : string) : string * string :=
  match s with
  | String c r =>
      match digit_of c with
      | Some _ => let (ds, rest) := take_digits r in (String c ds, rest)
      | None => (EmptyString, s)
      end
  | EmptyString => (EmptyString, s)
  end.

(** An integer numeral; a fraction or an exponent is outside the
    fragment. *)
Definition parse_number (s : string) : option (Z * string) :=
  let (negative, s1) :=
    match s with
    | String c r => if Ascii.eqb c "-" then (true, r) else (false, s)
    | EmptyString => (false, s)
    end in
  let (ds, rest) := take_digits s1 in
  match ds with
  | EmptyString => None
  | String c r =>
      if (Ascii.eqb c "0" && negb (String.eqb r EmptyString))%bool then None
      else
        let more :=
          match rest with
          | String c' _ => (Ascii.eqb c' "." || Ascii.eqb c' "e" || Ascii.eqb c' "E")%bool
          | EmptyString => false
          end in
        if more then None
        else match digits_value ds 0 with
             | Some n => Some (if negative : bool then (- Z.of_N n)%Z else Z.of_N n, rest)
             | None => None
             end
  end.

Definition unescape (c : ascii) : option ascii :=
  if Ascii.eqb c dquote then Some dquote
  else if Ascii.eqb c backslash then Some backslash
  else if Ascii.eqb c "/" then Some "/"%char
  else if Ascii.eqb c "b" then Some (ascii_of_nat 8)
  else if Ascii.eqb c "t" then Some (ascii_of_nat 9)
  else if Ascii.eqb c "n" then Some (ascii_of_nat 10)
  else if Ascii.eqb c "f" then Some (ascii_of_nat 12)
  else if Ascii.eqb c "r" then Some (ascii_of_nat 13)
  else None.

Definition hex_value (c : ascii) : option N :=
  let n := N_of_ascii c in
  if ((48 <=? n) && (n <=? 57))%N then Some (n - 48)%N
  else if ((97 <=? n) && (n <=? 102))%N then Some (n - 87)%N
  else if ((65 <=? n) && (n <=? 70))%N then Some (n - 55)%N
  else None.

(** The characters of a string literal, after its opening quote.  An
    escape \uXXXX is read when it names an ASCII character. *)
Fixpoint parse_chars (s : string) : option (string * string) :=
  match s with
  | EmptyString => None
  | String c r =>
      if Ascii.eqb c dquote then Some (EmptyString, r)
      else if Ascii.eqb c backslash then
        match r with
        | String e r' =>
            if Ascii.eqb e "u" then
              match r' with
              | String h1 (String h2 (String h3 (String h4 r''))) =>
                  match hex_value h1, hex_value h2, hex_value h3, hex_value h4,
                        parse_chars r'' with
                  | Some 0%N, Some 0%N, Some a, Some b, Some (str, rest) =>
                      if (a <? 8)%N then Some (String (ascii_of_N (16 * a + b)) str, rest)
                      else None
                  | _, _, _, _, _ => None
                  end
              | _ => None
              end
            else
              match unescape e, parse_chars r' with
              | Some ch, Some (str, rest) => Some (String ch str, rest)
              | _, _ => None
              end
        | EmptyString => None
        end
      else if (N_of_ascii c <? 32)%N then None
      else match parse_chars r with
           | Some (str, rest) => Some (String c str, rest)
           | None => None
           end
  end.

Definition is_char (c : ascii) (s : string) : option string :=
  match s with
  | String c' r => if Ascii.eqb c c' then Some r else None
  | EmptyString => None
  end.

Fixpoint parse_value (fuel : nat) (s : string) : option (value * string) :=
  match fuel with
  | O => None
  | S fuel' =>
      match skip_ws s with
      | EmptyString => None
      | String c r =>
          if Ascii.eqb c "n" then option_map (pair VNull) (after "ull" r)
          else if Ascii.eqb c "t" then option_map (pair (VBool true)) (after "rue" r)
          else if Ascii.eqb c "f" then option_map (pair (VBool false)) (after "alse" r)
          else if Ascii.eqb c dquote then
            match parse_chars r with
            | Some (str, rest) => Some (VStr str, rest)
            | None => None
            end
          else if Ascii.eqb c "[" then
            match is_char "]" (skip_ws r) with
            | Some rest => Some (VArr [] [], rest)
            | None =>
                (fix elements (n : nat) (s : string) (acc : list (option value))
                   : option (value * string) :=
                   match n with
                   | O => None
                   | S n' =>
                       match parse_value fuel' s with
                       | Some (v, r1) =>
                           let r2 := skip_ws r1 in
                           match is_char "," r2, is_char "]" r2 with
                           | Some r3, _ => elements n' r3 (Some v :: acc)
                           | None, Some r3 => Some (VArr (rev (Some v :: acc)) [], r3)
                           | None, None => None
                           end
                       | None => None
                       end
                   end) (String.length r) r []
            end
          else if Ascii.eqb c "{" then
            match is_char "}" (skip_ws r) with
            | Some rest => Some (VObj [], rest)
            | None =>
                (fix members (n : nat) (s : string) (acc : list (string * value))
                   : option (value * string) :=
                   match n with
                   | O => None
                   | S n' =>
                       match is_char dquote (skip_ws s) with
                       | Some r0 =>
                           match parse_chars r0 with
                           | Some (k, r1) =>
                               match is_char ":" (skip_ws r1) with
                               | Some r2 =>
                                   match parse_value fuel' r2 with
                                   | Some (v, r3) =>
                                       let r4 := skip_ws r3 in
                                       let acc' := obj_put k v acc in
                                       match is_char "," r4, is_char "}" r4 with
                                       | Some r5, _ => members n' r5 acc'
                                       | None, Some r5 => Some (VObj acc', r5)
                                       | None, None => None
                                       end
                                   | None => None
                                   end
                               | None => None
                               end
                           | None => None
                           end
                       | None => None
                       end
                   end) (String.length r) r []
            end
          else
            match parse_number (String c r) with
            | Some (n, rest) => Some (VNum n, rest)
            | None => None
            end
      end
  end.

Definition ref_parse (s : string) : option value :=
  match parse_value (S (String.length s)) s with
  | Some (v, rest) =>
      if String.eqb (skip_ws rest) EmptyString then Some v else None
  | None => None
  end.

(** The reference platform: the codec above, on a reliable medium. *)
Definition ref_platform : Platform :=
  {| JSON_parse := ref_parse;
     JSON_stringify := ref_stringify;
     stored := fun _ s => s |}.

(** The same codec on a medium that loses all but the first character of
    what is written to the temporary file. *)
Definition torn_platform : Platform :=
  {| JSON_parse := ref_parse;
     JSON_stringify := ref_stringify;
     stored := fun f s =>
       match f, s with
       | TempFile, String c _ => String c EmptyString
       | _, _ => s
       end |}.

(** The text [{"x":1}]. *)
Definition x_is_1 : string :=
  ("{" ++ quoted "x" ++ ":1}")%string.

End RefPlatform.


(** ** Vocabulary of the properties *)

(** The Map, Sequence and Scalar variants of a value. *)
Definition is_map (v : value) : bool :=
  match v with VObj _ => true | _ => false end.

Definition is_sequence (v : value) : bool :=
  match v with VArr _ _ => true | _ => false end.

Definition is_scalar (v : value) : bool :=
  match v with VNull | VBool _ | VNum _ | VStr _ => true | _ => false end.

(** [v] is a Map, and so is every value met from it along [keys], as far as
    the keys are present. *)
Fixpoint maps_along (v : value) (keys : list string) : bool :=
  match v with
  | VObj props =>
      match keys with
      | [] => true
      | k :: rest =>
          match assoc_get k props with
          | Some child => maps_along child rest
          | None => true
          end
      end
  | _ => false
  end.

(** The list without its element at index [i]. *)
Definition remove_nth {A : Type} (i : nat) (l : list A) : list A :=
  firstn i l ++ skipn (S i) l.

(** The mutating operations of the store. *)
Inductive operation : Type :=
| OpSet (key : string) (x : value)
| OpDelete (key : string)
| OpDeleteAll
| OpPush (key : string) (x : value)
| OpUnpush (key : string) (x : value)
| OpSetByPriority (key : string) (x : value) (priority : Z)
| OpDelByPriority (key : string) (priority : Z).

Definition run `{Platform} (o : operation) : M unit :=
  match o with
  | OpSet key x => set key x ;; ret tt
  | OpDelete key => delete key ;; ret tt
  | OpDeleteAll => deleteAll ;; ret tt
  | OpPush key x => push key x ;; ret tt
  | OpUnpush key x => unpush key x ;; ret tt
  | OpSetByPriority key x n => setByPriority key x n ;; ret tt
  | OpDelByPriority key n => delByPriority key n ;; ret tt
  end.

(** The indent that [stringifyData] asks for. *)
Definition indent_of (db : LumeDB) : nat := if readable db then 2%nat else 0%nat.

(** Concrete stores for the runs below. *)
Definition empty_folder : FS := mkFS None None None.

Definition fresh (blank : bool) : LumeDB := mkDB (VObj []) false blank empty_folder.

Definition holding (d : value) : LumeDB := mkDB d false false empty_folder.

(** The round trip of a store: [set(key, x)] returns [x] and [get(key)]
    then returns [x]. *)
Definition round_trip `{Platform} (db : LumeDB) (key : string) (x : value) : Prop :=
  exists db', set key x db = Ok x db' /\ get key db' = Ok (Some x) db'.

(** [set("a.b", x)] replaces the value of [a] by a fresh Map that holds
    [x] under [b]. *)
Definition overwrites_a `{Platform} (db : LumeDB) (x : value) : Prop :=
  exists db',
    set "a.b" x db = Ok x db' /\ get "a" db' = Ok (Some (VObj [("b", x)])) db'.


(** The root of the document is a Map after construction over [folder]. *)
Definition root_is_map_after_construction `{Platform} (options : Options) (folder : FS)
    : Prop :=
  forall db, state_of (new_LumeDB options folder) = Some db -> is_map (data db) = true.

(** The files of a folder that hold JSON hold a JSON object. *)
Definition files_hold_maps `{Platform} (folder : FS) : Prop :=
  forall f s v,
    (f = MainFile \/ f = BackupFile) -> fs_get folder f = Some s ->
    JSON_parse s = Some v -> is_map v = true.

(** Arrays and plain objects: the values that hold properties of their own
    and can be mutated. *)
Definition is_container (v : value) : bool := negb (is_scalar v).

Definition root_map (db : LumeDB) : Prop := is_map (data db) = true.

(** [m] keeps the root a Map, whether it returns or raises. *)
Definition keeps_root {A : Type} (m : M A) : Prop :=
  forall db db', root_map db -> state_of (m db) = Some db' -> root_map db'.


(** ** Vocabulary of the further properties *)

(** The path [p.q]. *)
Definition dot (p q : string) : string := (p ++ String "." q)%string.

(** The first segment of a path. *)
Definition first_segment (path : string) : string := hd EmptyString (split_dot path).


(** No segment of the path names a member inherited from Object.prototype. *)
Definition own_path (path : string) : bool := forallb own_key (split_dot path).

(** The keys of an object are distinct: every JavaScript object satisfies
    this, an association list need not. *)
Fixpoint unique_keys {A : Type} (ps : list (string * A)) : bool :=
  match ps with
  | [] => true
  | (k, _) :: rest => negb (isSome (assoc_get k rest)) && unique_keys rest
  end.

Fixpoint well_formed (v : value) : bool :=
  match v with
  | VArr items extra =>
      forallb (fun item => match item with
                           | Some x => well_formed x
                           | None => true
                           end) items
      && unique_keys extra
      && forallb (fun kx => well_formed (snd kx)) extra
  | VObj props =>
      unique_keys props && forallb (fun kx => well_formed (snd kx)) props
  | VNull | VBool _ | VNum _ | VStr _ => true
  end.

(** A medium that stores what is written. *)
Definition reliable `{Platform} : Prop := forall f s, stored f s = s.

(** The main file and the backup file both hold the serialization of the
    document in memory, and no temporary file is left. *)
Definition synced `{Platform} (db : LumeDB) : Prop :=
  let s := JSON_stringify (indent_of db) (data db) in
  disk db = mkFS (Some s) (Some s) None.

(** [setReadable(value)]: [this.readable = value; this.save()]. *)
Definition setReadable `{Platform} (value : bool) : M unit :=
  (fun db => Ok tt (mkDB (data db) value (noBlankData db) (disk db))) ;; save.

(** Whenever [m] returns, the files mirror the document. *)
Definition ends_synced `{Platform} {A : Type} (m : M A) : Prop :=
  forall db a db', m db = Ok a db' -> synced db'.

(** The value of a decimal numeral, read from the left as [digits_value]
    reads its string. *)
Fixpoint uint_value (d : Decimal.uint) (acc : N) : N :=
  match d with
  | Decimal.Nil => acc
  | Decimal.D0 l => uint_value l (10 * acc)%N
  | Decimal.D1 l => uint_value l (10 * acc + 1)%N
  | Decimal.D2 l => uint_value l (10 * acc + 2)%N
  | Decimal.D3 l => uint_value l (10 * acc + 3)%N
  | Decimal.D4 l => uint_value l (10 * acc + 4)%N
  | Decimal.D5 l => uint_value l (10 * acc + 5)%N
  | Decimal.D6 l => uint_value l (10 * acc + 6)%N
  | Decimal.D7 l => uint_value l (10 * acc + 7)%N
  | Decimal.D8 l => uint_value l (10 * acc + 8)%N
  | Decimal.D9 l => uint_value l (10 * acc + 9)%N
  end.


(** ** Paths that stay on the properties of the document *)

(** [v[k]] can only be a property that [v] holds itself: on a Map when [k]
    is not a name of [Object.prototype], on a Sequence when [k] is an array
    index.  A falsy value is never indexed by the traversals.  Numbers,
    strings and booleans inherit the members of the prototype of their
    wrapper: on a truthy scalar no key is taken to be clear. *)
Definition plain_key (v : value) (k : string) : bool :=
  match v with
  | VObj _ => own_key k
  | VArr _ _ => isSome (array_index k)
  | VNull | VBool _ | VNum _ | VStr _ => negb (truthy v)
  end.

(** The traversal of [getNestedValue] from [v] along [keys] reads, at every
    step, a property of the value it stands on. *)
Fixpoint plain_walk (v : value) (keys : list string) : bool :=
  match keys with
  | [] => true
  | k :: rest =>
      plain_key v k &&
      match get_step (Some v) k with
      | Some child => plain_walk child rest
      | None => true
      end
  end.

(** The descent of [setNestedValue] from [v] along [keys] meets Maps and
    Sequences only (what is missing is created, as a Map); it enters a
    Sequence by a property that the Sequence holds or by an array index;
    and its last step, [target[lastKey] = value], does not assign the
    [length] of a Sequence. *)
Fixpoint reaches_container (v : value) (keys : list string) (lastKey : string)
    : bool :=
  match keys with
  | [] =>
      match v with
      | VObj _ => true
      | VArr _ _ => negb (String.eqb lastKey "length")
      | VNull | VBool _ | VNum _ | VStr _ => false
      end
  | k :: rest =>
      match v with
      | VObj _ | VArr _ _ =>
          match get_prop v k with
          | Some child => reaches_container child rest lastKey
          | None => is_map v || isSome (array_index k)
          end
      | VNull | VBool _ | VNum _ | VStr _ => false
      end
  end.

(** The same for a path: its proper prefixes are the keys of the descent,
    its last segment is [lastKey]. *)
Definition settable (obj : value) (path : string) : bool :=
  reaches_container obj (fst (pop (split_dot path))) (snd (pop (split_dot path))).

(** The elements of an array in their order, without its holes. *)
Definition elements (items : list (option value)) : list value :=
  flat_map (fun item => match item with Some v => [v] | None => [] end) items.


Import RefPlatform.

(** ** Persistence *)

Section Persistence.
Context {P : Platform}.

(** [save] in one equation: the bytes read back from the temporary file
    decide between the swap and the raise. *)
Lemma save_eq (db : LumeDB) :
  let s := JSON_stringify (indent_of db) (data db) in
  let back := stored TempFile s in
  save db =
    match JSON_parse back with
    | Some _ =>
        Ok tt (mkDB (data db) (readable db) (noBlankData db)
                 (mkFS (Some back) (Some (stored BackupFile s)) None))
    | None =>
        Throw (Error "Invalid JSON format")
          (mkDB (data db) (readable db) (noBlankData db)
             (mkFS (main_file (disk db)) (backup_file (disk db)) (Some back)))
    end.
Proof.
  destruct db as [d r b [m bk t]].
  unfold save, bind, this_data, stringifyData, this_readable, ret,
    writeFileSync, set_disk, readFileSync, validateData, try_catch,
    JSON_parse_or_raise, moveSync, createBackup, throw, indent_of; simpl.
  destruct (JSON_parse _); reflexivity.
Qed.

(** [save] returns or raises its own error; the document in memory is
    the same either way. *)
Lemma save_outcome (db : LumeDB) :
  exists db', data db' = data db /\
    (save db = Ok tt db' \/ save db = Throw (Error "Invalid JSON format") db').
Proof.
  rewrite save_eq; cbv zeta.
  destruct (JSON_parse _); eexists; split; try (left; reflexivity);
    try (right; reflexivity); reflexivity.
Qed.

(** C2: a save whose temporary file does not read back as JSON raises the
    validation error to the caller and leaves the main file (and the
    backup, and the document in memory) as they were. *)
Theorem save_failed_validation_keeps_main (db : LumeDB) :
  JSON_parse (stored TempFile (JSON_stringify (indent_of db) (data db))) = None ->
  exists db',
    save db = Throw (Error "Invalid JSON format") db' /\
    main_file (disk db') = main_file (disk db) /\
    backup_file (disk db') = backup_file (disk db) /\
    data db' = data db.
Proof.
  intros Hbad. rewrite save_eq; cbv zeta. rewrite Hbad.
  eexists; repeat split.
Qed.

(** Loading from the backup file, when its text is not JSON. *)
Lemma load_from_backup_invalid (db : LumeDB) (b : string) :
  backup_file (disk db) = Some b -> JSON_parse b = None ->
  load_from_backup db = Throw (Error "Invalid JSON format") db.
Proof.
  intros Hb Hp.
  unfold load_from_backup, bind, readFileSync, validateData, try_catch,
    JSON_parse_or_raise, throw; simpl.
  rewrite Hb, Hp. reflexivity.
Qed.

(** When the backup file is not JSON and the main file is missing or is
    not JSON either, [loadDatabase] raises: the handler of its [catch]
    validates the backup outside of any [try]. *)
Lemma loadDatabase_invalid_backup (db : LumeDB) (b : string) :
  backup_file (disk db) = Some b -> JSON_parse b = None ->
  (forall m, main_file (disk db) = Some m -> JSON_parse m = None) ->
  loadDatabase db = Throw (Error "Invalid JSON format") db.
Proof.
  intros Hb Hp Hm.
  destruct db as [d r nb [m bk t]]; simpl in *; subst bk.
  unfold loadDatabase, load_from_backup, try_catch, bind, existsSync,
    readFileSync, validateData, try_catch, bind, JSON_parse_or_raise, throw;
    simpl.
  destruct m as [m|]; simpl.
  - rewrite (Hm m eq_refl); simpl. rewrite Hp. reflexivity.
  - rewrite Hp; simpl. rewrite Hp. reflexivity.
Qed.

(** C1: constructing the store over a folder whose backup file is not
    JSON, while the main file is missing or is not JSON either, fails:
    the error of the backup validation reaches the caller. *)
Theorem construction_fails_on_invalid_backup
    (options : Options) (main : option string) (b : string) (t : option string) :
  JSON_parse b = None ->
  (forall m, main = Some m -> JSON_parse m = None) ->
  exists db,
    new_LumeDB options (mkFS main (Some b) t) = Throw (Error "Invalid JSON format") db.
Proof.
  intros Hp Hm. eexists. unfold new_LumeDB, initializeDatabase.
  apply (loadDatabase_invalid_backup _ b); simpl; auto.
Qed.

(** C6: over a main file that is not JSON and a backup file that holds
    [{"x":1}], construction succeeds, [get("x")] is 1, and the main file
    holds the serialization of the document of the backup. *)
Theorem backup_recovery (options : Options) (main : string) (t : option string) :
  let doc := VObj [("x", VNum 1)] in
  let bytes := JSON_stringify (if opt_readable options then 2 else 0)%nat doc in
  JSON_parse main = None ->
  JSON_parse x_is_1 = Some doc ->
  stored TempFile bytes = bytes ->
  JSON_parse bytes = Some doc ->
  exists db,
    new_LumeDB options (mkFS (Some main) (Some x_is_1) t) = Ok tt db /\
    get "x" db = Ok (Some (VNum 1)) db /\
    main_file (disk db) = Some bytes /\
    JSON_parse bytes = JSON_parse x_is_1.
Proof.
  intros doc bytes Hmain Hbak Hmedium Hround.
  unfold new_LumeDB, initializeDatabase, loadDatabase, try_catch.
  unfold bind at 1, existsSync; simpl.
  unfold bind at 1, readFileSync; simpl.
  unfold bind at 1, validateData, try_catch, bind at 1, JSON_parse_or_raise,
    throw; simpl.
  rewrite Hmain; simpl.
  unfold bind at 1, existsSync; simpl.
  unfold load_from_backup.
  unfold bind at 1, readFileSync; simpl.
  unfold bind at 1, validateData, try_catch, bind at 1, JSON_parse_or_raise,
    ret; simpl.
  rewrite Hbak; simpl.
  unfold bind at 1, parseData, JSON_parse_or_raise, ret; simpl.
  rewrite Hbak; simpl.
  unfold bind at 1, set_data; simpl.
  rewrite save_eq; cbv zeta; unfold indent_of; simpl.
  fold doc. fold bytes. rewrite Hmedium, Hround.
  eexists; split; [reflexivity|]. simpl.
  repeat split; congruence.
Qed.
End Persistence.

(** Reading never writes: [get], [fetch] and [has] are one traversal. *)
Section Reading.
(** C10: [has(P)] is true exactly when [get(P)], which is [fetch(P)],
    returns a present value; the three calls leave the instance as it
    was. *)
Theorem has_iff_get_present (db : LumeDB) (key : string) :
  exists r b,
    get key db = Ok r db /\ fetch key db = Ok r db /\ has key db = Ok b db /\
    (b = true <-> r <> None).
Proof.
  exists (getNestedValue (data db) key), (isSome (getNestedValue (data db) key)).
  repeat split; destruct (getNestedValue (data db) key); simpl;
    congruence.
Qed.
End Reading.

(** ** Properties and arrays: basic facts *)


Section AssocFacts.
Context {A : Type}.
Implicit Types (ps : list (string * A)) (k : string) (x y : A).

Lemma assoc_get_replace ps k x y :
  assoc_get k ps = Some y -> assoc_get k (assoc_replace k x ps) = Some x.
Proof.
  induction ps as [|[k' z] ps IH]; simpl; [discriminate|].
  destruct (String.eqb k k') eqn:E; simpl; rewrite E; auto.
Qed.

Lemma assoc_get_insert_index ps k x i :
  assoc_get k (insert_index i k x ps) = Some x \/ assoc_get k ps <> None.
Proof.
  induction ps as [|[k' z] ps IH]; simpl.
  - rewrite String.eqb_refl. now left.
  - destruct (String.eqb k k') eqn:E; [right; discriminate|].
    destruct (array_index k') as [j|]; simpl.
    + destruct (j <? i)%nat; simpl; [rewrite E; exact IH|].
      rewrite String.eqb_refl. now left.
    + rewrite String.eqb_refl. now left.
Qed.

Lemma assoc_get_app_new ps k x :
  assoc_get k ps = None -> assoc_get k (ps ++ [(k, x)]) = Some x.
Proof.
  induction ps as [|[k' z] ps IH]; simpl.
  - now rewrite String.eqb_refl.
  - destruct (String.eqb k k'); [discriminate|auto].
Qed.

Lemma assoc_get_obj_put ps k x : assoc_get k (obj_put k x ps) = Some x.
Proof.
  unfold obj_put. destruct (assoc_get k ps) eqn:E.
  - eapply assoc_get_replace; eauto.
  - destruct (array_index k).
    + destruct (assoc_get_insert_index ps k x n); congruence.
    + now apply assoc_get_app_new.
Qed.

Lemma obj_put_present ps k x y :
  assoc_get k ps = Some y -> obj_put k x ps = assoc_replace k x ps.
Proof. unfold obj_put. now intros ->. Qed.

Lemma extra_put_present ps k x y :
  assoc_get k ps = Some y -> extra_put k x ps = assoc_replace k x ps.
Proof. unfold extra_put. now intros ->. Qed.
End AssocFacts.

Lemma nth_error_replace_nth {A : Type} (l : list A) (i : nat) (x y : A) :
  nth_error l i = Some y -> nth_error (replace_nth i x l) i = Some x.
Proof.
  revert i; induction l as [|h t IH]; intros [|i]; simpl; try discriminate; auto.
Qed.

Lemma arr_get_replace items i x y :
  arr_get items i = Some y -> arr_get (replace_nth i (Some x) items) i = Some x.
Proof.
  unfold arr_get. destruct (nth_error items i) as [[v|]|] eqn:E; try discriminate.
  intros _. now rewrite (nth_error_replace_nth _ _ _ _ E).
Qed.

Lemma arr_set_present items i x y :
  arr_get items i = Some y -> arr_set items i x = replace_nth i (Some x) items.
Proof.
  unfold arr_get, arr_set. destruct (nth_error items i) eqn:E; [|discriminate].
  intros _. assert (i < length items) by (apply nth_error_Some; congruence).
  destruct (Nat.ltb_spec i (length items)); [reflexivity|lia].
Qed.

(** *** A property that holds a container *)

Section Containers.
Implicit Types (v child x : value) (k : string).

Lemma get_prop_container_parent v k child :
  get_prop v k = Some child -> is_container child = true ->
  is_container v = true /\ truthy v = true.
Proof.
  destruct v; simpl; try discriminate; auto.
  destruct (array_index k).
  - destruct (String.get n s); [|discriminate]. intros [= <-]. discriminate.
  - destruct (String.eqb k "length"); [|discriminate]. intros [= <-]. discriminate.
Qed.

Lemma get_prop_replace v k child x :
  get_prop v k = Some child -> is_container child = true ->
  get_prop (prop_replace v k x) k = Some x.
Proof.
  intros Hg Hc.
  destruct (get_prop_container_parent _ _ _ Hg Hc) as [Hv _].
  destruct v; try discriminate; simpl in *.
  - destruct (array_index k) eqn:Ei; simpl; rewrite Ei.
    + eapply arr_get_replace; eauto.
    + destruct (String.eqb k "length"); [injection Hg as <-; discriminate|].
      eapply assoc_get_replace; eauto.
  - eapply assoc_get_replace; eauto.
Qed.

Lemma prop_replace_container v k x :
  is_container (prop_replace v k x) = is_container v /\
  truthy (prop_replace v k x) = truthy v /\
  is_map (prop_replace v k x) = is_map v.
Proof. destruct v; simpl; auto. destruct (array_index k); auto. Qed.

Lemma has_property_found v k child :
  get_prop v k = Some child -> is_container v = true ->
  has_property k v = Val true.
Proof.
  destruct v; try discriminate; simpl.
  - destruct (array_index k).
    + now intros ->.
    + destruct (String.eqb k "length"); [reflexivity|]. now intros ->.
  - now intros ->.
Qed.

Lemma put_prop_found v k child x :
  get_prop v k = Some child -> is_container child = true ->
  put_prop v k x = Val (prop_replace v k x).
Proof.
  intros Hg Hc.
  destruct (get_prop_container_parent _ _ _ Hg Hc) as [Hv _].
  destruct v; try discriminate; simpl in *.
  - destruct (array_index k).
    + now rewrite (arr_set_present _ _ _ _ Hg).
    + destruct (String.eqb k "length"); [injection Hg as <-; discriminate|].
      now rewrite (extra_put_present _ _ _ _ Hg).
  - now rewrite (obj_put_present _ _ _ _ Hg).
Qed.
End Containers.

(** *** Traversals *)

Lemma fold_get_none (keys : list string) : fold_left get_step keys None = None.
Proof. induction keys; simpl; auto. Qed.

(** From a scalar, a traversal only meets scalars. *)
Lemma fold_get_scalar (keys : list string) : forall v w,
  is_scalar v = true -> fold_left get_step keys (Some v) = Some w ->
  is_scalar w = true.
Proof.
  induction keys as [|k keys IH]; simpl; intros v w Hv Hf.
  - congruence.
  - destruct (truthy v); [|now rewrite fold_get_none in Hf].
    destruct (get_prop v k) as [c|] eqn:Eg; [|now rewrite fold_get_none in Hf].
    apply (IH c w); [|exact Hf].
    destruct (is_scalar c) eqn:Ec; [reflexivity|].
    assert (Hc : is_container c = true) by (unfold is_container; now rewrite Ec).
    destruct (get_prop_container_parent _ _ _ Eg Hc) as [Hv' _].
    unfold is_container in Hv'. rewrite Hv in Hv'. discriminate.
Qed.

(** The first step of a traversal that ends on a container. *)
Lemma fold_get_cons (k : string) (keys : list string) (obj old : value) :
  fold_left get_step (k :: keys) (Some obj) = Some old ->
  is_container old = true ->
  exists child,
    get_prop obj k = Some child /\ is_container child = true /\
    fold_left get_step keys (Some child) = Some old.
Proof.
  simpl. intros Hf Ho.
  destruct (truthy obj); [|now rewrite fold_get_none in Hf].
  destruct (get_prop obj k) as [c|] eqn:Eg; [|now rewrite fold_get_none in Hf].
  exists c; repeat split; auto.
  destruct (is_scalar c) eqn:Ec; [|unfold is_container; now rewrite Ec].
  pose proof (fold_get_scalar _ _ _ Ec Hf) as Hs.
  unfold is_container in Ho. rewrite Hs in Ho. discriminate.
Qed.

(** After the object found along [keys] was replaced, the same traversal
    finds the replacement. *)
Lemma get_store_at (keys : list string) : forall obj old new,
  fold_left get_step keys (Some obj) = Some old -> is_container old = true ->
  fold_left get_step keys (Some (store_at obj keys new)) = Some new.
Proof.
  induction keys as [|k keys IH]; intros obj old new Hf Ho.
  - reflexivity.
  - destruct (fold_get_cons _ _ _ _ Hf Ho) as (c & Eg & Hc & Hrest).
    destruct (get_prop_container_parent _ _ _ Eg Hc) as [_ Ht].
    simpl. rewrite Eg.
    destruct (prop_replace_container obj k (store_at c keys new)) as (_ & -> & _).
    rewrite Ht, (get_prop_replace _ _ _ _ Eg Hc).
    eapply IH; eauto.
Qed.

(** Where [get] finds a container, [setNestedValue] replaces it in place. *)
Lemma set_descend_found (keys : list string) : forall lastKey obj old x,
  fold_left get_step (keys ++ [lastKey]) (Some obj) = Some old ->
  is_container old = true ->
  set_descend obj keys lastKey x = Val (store_at obj (keys ++ [lastKey]) x).
Proof.
  induction keys as [|k keys IH]; intros lastKey obj old x Hf Ho.
  - destruct (fold_get_cons _ _ _ _ Hf Ho) as (c & Eg & Hc & Hrest).
    simpl in Hrest. injection Hrest as ->.
    simpl. rewrite Eg. eapply put_prop_found; eauto.
  - destruct (fold_get_cons _ _ _ _ Hf Ho) as (c & Eg & Hc & Hrest).
    destruct (get_prop_container_parent _ _ _ Eg Hc) as [Hv _].
    simpl. rewrite (has_property_found _ _ _ Eg Hv); simpl.
    rewrite Eg, (IH _ _ _ x Hrest Ho). reflexivity.
Qed.

(** [split_dot] never returns the empty list, so [pop] splits it. *)
Lemma split_dot_nonempty (s : string) : split_dot s <> [].
Proof.
  destruct s as [|c s]; simpl; [discriminate|].
  destruct (Ascii.eqb c "."); [discriminate|].
  destruct (split_dot s); discriminate.
Qed.

Lemma split_dot_pop (s : string) :
  split_dot s = fst (pop (split_dot s)) ++ [snd (pop (split_dot s))].
Proof. apply app_removelast_last, split_dot_nonempty. Qed.

(** [setNestedValue] through Maps: the missing ones are created, and the
    traversal of [getNestedValue] then finds the value that was stored. *)
Lemma maps_along_empty (keys : list string) : maps_along (VObj []) keys = true.
Proof. destruct keys; reflexivity. Qed.

Lemma set_descend_maps (keys : list string) : forall lastKey obj x,
  maps_along obj keys = true ->
  exists obj',
    set_descend obj keys lastKey x = Val obj' /\ is_map obj' = true /\
    fold_left get_step (keys ++ [lastKey]) (Some obj') = Some x.
Proof.
  induction keys as [|k keys IH]; intros lastKey obj x Hm;
    destruct obj as [| | | | |props]; try discriminate; simpl in Hm.
  - eexists; split; [reflexivity|]. simpl. now rewrite assoc_get_obj_put.
  - simpl. destruct (assoc_get k props) as [child|] eqn:Eg; simpl.
    + rewrite Eg.
      destruct (IH lastKey child x Hm) as (child' & -> & _ & Hget).
      eexists; split; [reflexivity|]. simpl.
      now rewrite (assoc_get_replace _ _ _ _ Eg).
    + rewrite assoc_get_obj_put.
      destruct (IH lastKey (VObj []) x (maps_along_empty keys))
        as (child' & -> & _ & Hget).
      eexists; split; [reflexivity|]. simpl.
      now rewrite (assoc_get_replace _ _ _ _ (assoc_get_obj_put props k (VObj []))).
Qed.

(** ** Path addressing *)

Section Addressing.
Context {P : Platform}.

(** [set] is [setNestedValue] on the document, then [save]. *)
Lemma set_eq (db : LumeDB) (key : string) (x : value) (obj' : value) :
  setNestedValue (data db) key x = Val obj' ->
  exists db', data db' = obj' /\
    (set key x db = Ok x db' \/ set key x db = Throw (Error "Invalid JSON format") db').
Proof.
  intros Hs.
  destruct (save_outcome (mkDB obj' (readable db) (noBlankData db) (disk db)))
    as (db' & Hd & Hsave).
  exists db'; split; [exact Hd|].
  unfold set, bind, this_data, lift, set_data, ret. rewrite Hs.
  destruct Hsave as [-> | ->]; auto.
Qed.

Lemma set_raise (db : LumeDB) (key : string) (x : value) (e : exn) :
  setNestedValue (data db) key x = Raise e -> set key x db = Throw e db.
Proof.
  intros Hs. unfold set, bind, this_data, lift. now rewrite Hs.
Qed.

Lemma get_eq (db : LumeDB) (key : string) :
  get key db = Ok (fold_left get_step (split_dot key) (Some (data db))) db.
Proof. reflexivity. Qed.

(** C9, amended: when [a] holds a scalar, [set("a.b", v)] raises a
    TypeError; the document and the files are as they were. *)
Theorem set_under_scalar_raises (db : LumeDB) (props : list (string * value))
    (s x : value) :
  data db = VObj props -> assoc_get "a" props = Some s -> is_scalar s = true ->
  set "a.b" x db = Throw TypeError db.
Proof.
  intros Hd Ha Hs. apply set_raise. rewrite Hd.
  unfold setNestedValue; simpl. rewrite Ha; simpl. rewrite Ha.
  destruct s; try discriminate; reflexivity.
Qed.
End Addressing.

(** ** Array operations *)

Lemma remove_nth_length {A : Type} (i : nat) (l : list A) :
  i < length l -> S (length (remove_nth i l)) = length l.
Proof.
  intros Hi. unfold remove_nth.
  rewrite length_app, firstn_length_le, length_skipn; lia.
Qed.

Section SpliceFacts.
Variable items : list (option value).
Let len := Z.of_nat (length items).



End SpliceFacts.

Section ArrayOps.
Context {P : Platform}.


End ArrayOps.

(** ** The root of the document *)

Lemma keeps_root_bind {A B : Type} (m : M A) (k : A -> M B) :
  keeps_root m -> (forall a, keeps_root (k a)) -> keeps_root (bind m k).
Proof.
  intros Hm Hk db db' Hr. unfold bind.
  destruct (m db) as [a d1|e d1|] eqn:E; simpl.
  - apply (Hk a). apply (Hm db d1 Hr). now rewrite E.
  - intros [= <-]. apply (Hm db d1 Hr). now rewrite E.
  - discriminate.
Qed.

Lemma keeps_root_ret {A : Type} (a : A) : keeps_root (ret a).
Proof. intros db db' Hr [= <-]. exact Hr. Qed.

Lemma keeps_root_throw {A : Type} (e : exn) : keeps_root (@throw A e).
Proof. intros db db' Hr [= <-]. exact Hr. Qed.

Lemma keeps_root_lift {A : Type} (r : res A) : keeps_root (lift r).
Proof. intros db db' Hr. unfold lift. destruct r; simpl; congruence. Qed.

Lemma keeps_root_set_data (d : value) : is_map d = true -> keeps_root (set_data d).
Proof. intros Hd db db' _ [= <-]. exact Hd. Qed.

Lemma store_at_is_map (path : list string) (obj new : value) :
  is_map obj = true -> (path = [] -> is_map new = true) ->
  is_map (store_at obj path new) = true.
Proof.
  intros Ho Hn. destruct path as [|k rest]; simpl; [auto|].
  destruct (get_prop obj k); [|exact Ho].
  now destruct (prop_replace_container obj k (store_at v rest new)) as (_ & _ & ->).
Qed.

Lemma delete_prop_is_map (v v' : value) (k : string) :
  is_map v = true -> delete_prop v k = Val v' -> is_map v' = true.
Proof. destruct v; try discriminate. simpl. now intros _ [= <-]. Qed.

Lemma set_descend_is_map (keys : list string) (lastKey : string) (obj x obj' : value) :
  is_map obj = true -> set_descend obj keys lastKey x = Val obj' ->
  is_map obj' = true.
Proof.
  destruct obj as [| | | | |props]; try discriminate. intros _.
  destruct keys as [|k rest]; simpl.
  - now intros [= <-].
  - destruct (isSome (assoc_get k props)); simpl.
    + destruct (assoc_get k props); [|discriminate].
      destruct (set_descend v rest lastKey x); simpl; try discriminate.
      now intros [= <-].
    + destruct (assoc_get k (obj_put k (VObj []) props)); [|discriminate].
      destruct (set_descend v rest lastKey x); simpl; try discriminate.
      now intros [= <-].
Qed.

Section RootInvariant.
Context {P : Platform}.

Lemma keeps_root_save : keeps_root save.
Proof.
  intros db db' Hr. rewrite save_eq; cbv zeta.
  destruct (JSON_parse _); simpl; intros [= <-]; exact Hr.
Qed.

Lemma keeps_root_set (key : string) (x : value) : keeps_root (set key x).
Proof.
  intros db db' Hr. unfold set, bind at 1, this_data.
  unfold bind at 1, lift.
  destruct (setNestedValue (data db) key x) as [obj'| |] eqn:Es; simpl;
    [|congruence|discriminate].
  assert (Hm : is_map obj' = true).
  { unfold setNestedValue in Es. destruct (pop (split_dot key)).
    eapply set_descend_is_map; eauto. }
  apply (fun H => keeps_root_bind (set_data obj') (fun _ => save ;; ret x)
           (keeps_root_set_data _ Hm) H db db' Hr).
  intros _. apply keeps_root_bind; [apply keeps_root_save|].
  intros _; apply keeps_root_ret.
Qed.

Lemma keeps_root_prune_step (rkeys : list string) (index : nat) (key : string) :
  keeps_root (prune_step rkeys index key).
Proof.
  intros db db' Hr. unfold prune_step, bind at 1, this_data.
  set (ppath := firstn _ rkeys).
  unfold bind at 1, lift.
  destruct (reduce_read ppath (Some (data db))) as [[p|]|e|] eqn:Er; simpl;
    try congruence; try discriminate.
  destruct (truthy p); [|simpl; congruence].
  unfold bind at 1, lift.
  destruct (own_key_count (get_prop p key)) as [n|e|]; simpl;
    try congruence; try discriminate.
  destruct (n =? 0)%nat; [|simpl; congruence].
  unfold bind, lift.
  destruct (delete_prop p key) as [p'|e|] eqn:Ed; simpl;
    try congruence; try discriminate.
  intros [= <-]. unfold root_map; simpl.
  apply store_at_is_map; [exact Hr|].
  intros E. rewrite E in Er. simpl in Er. injection Er as <-.
  eapply delete_prop_is_map; eauto.
Qed.

Lemma keeps_root_forEach {A : Type} (f : nat -> A -> M unit) (l : list A) :
  (forall i x, keeps_root (f i x)) -> forall index, keeps_root (forEach f index l).
Proof.
  intros Hf. induction l as [|x l IH]; intros index; simpl.
  - apply keeps_root_ret.
  - apply keeps_root_bind; [apply Hf|]. intros _; apply IH.
Qed.

Lemma keeps_root_deleteNestedValue (path : string) :
  keeps_root (deleteNestedValue path).
Proof.
  intros db db' Hr. unfold deleteNestedValue.
  destruct (pop (split_dot path)) as [keys lastKey].
  unfold bind at 1, this_data.
  destruct (fold_left get_step keys (Some (data db))) as [target|] eqn:Ef;
    [|simpl; congruence].
  destruct (truthy target && isSome (get_prop target lastKey))%bool;
    [|simpl; congruence].
  unfold bind at 1, lift.
  destruct (delete_prop target lastKey) as [t'|e|] eqn:Ed; simpl;
    try congruence; try discriminate.
  assert (Hm : is_map (store_at (data db) keys t') = true).
  { apply store_at_is_map; [exact Hr|].
    intros ->. simpl in Ef. injection Ef as <-.
    eapply delete_prop_is_map; eauto. }
  apply (fun H => keeps_root_bind (set_data _) _ (keeps_root_set_data _ Hm) H db db' Hr).
  intros _. apply keeps_root_bind; [intros d d' Hd [= <-]; exact Hd|].
  intros blank. apply keeps_root_bind; [|intros _; apply keeps_root_ret].
  destruct blank; [|apply keeps_root_ret].
  apply keeps_root_forEach. intros; apply keeps_root_prune_step.
Qed.

Lemma keeps_root_in_place (key : string) (found : option value) (array' : value) :
  keeps_root (in_place key found array').
Proof.
  intros db db' Hr. unfold in_place.
  destruct found as [v|]; [|simpl; congruence].
  destruct (truthy v); [|simpl; congruence].
  unfold bind, this_data, set_data; simpl. intros [= <-].
  apply store_at_is_map; [exact Hr|].
  intros E. now destruct (split_dot_nonempty key).
Qed.

Lemma keeps_root_get (key : string) : keeps_root (get key).
Proof. intros db db' Hr [= <-]. exact Hr. Qed.

(** Every mutating operation keeps the root a Map. *)
Lemma keeps_root_run (o : operation) : keeps_root (run o).
Proof.
  destruct o; unfold run; (apply keeps_root_bind; [|intros _; apply keeps_root_ret]).
  - apply keeps_root_set.
  - unfold delete. apply keeps_root_bind; [apply keeps_root_deleteNestedValue|].
    intros r. apply keeps_root_bind; [apply keeps_root_save|].
    intros _; apply keeps_root_ret.
  - unfold deleteAll. apply keeps_root_bind; [now apply keeps_root_set_data|].
    intros _. apply keeps_root_bind; [apply keeps_root_save|].
    intros _; apply keeps_root_ret.
  - unfold push. apply keeps_root_bind; [apply keeps_root_get|]. intros found.
    destruct (or_empty_array found); try apply keeps_root_throw.
    apply keeps_root_bind; [apply keeps_root_in_place|]. intros _.
    apply keeps_root_bind; [apply keeps_root_set|]. intros _; apply keeps_root_ret.
  - unfold unpush. apply keeps_root_bind; [apply keeps_root_get|]. intros found.
    destruct (or_empty_array found); try apply keeps_root_throw.
    apply keeps_root_bind; [apply keeps_root_set|]. intros _; apply keeps_root_ret.
  - unfold setByPriority. apply keeps_root_bind; [apply keeps_root_get|]. intros found.
    destruct (or_empty_array found); try apply keeps_root_throw.
    apply keeps_root_bind; [apply keeps_root_lift|]. intros array'.
    apply keeps_root_bind; [apply keeps_root_in_place|]. intros _.
    apply keeps_root_bind; [apply keeps_root_set|]. intros _; apply keeps_root_ret.
  - unfold delByPriority. apply keeps_root_bind; [apply keeps_root_get|]. intros found.
    destruct (or_empty_array found); try apply keeps_root_throw.
    apply keeps_root_bind; [apply keeps_root_in_place|]. intros _.
    apply keeps_root_bind; [apply keeps_root_set|]. intros _; apply keeps_root_ret.
Qed.

(** Loading keeps the root a Map when the files that hold JSON hold a
    JSON object. *)
Lemma loadDatabase_root (db db' : LumeDB) :
  JSON_parse EmptyString = None ->
  files_hold_maps (disk db) -> root_map db ->
  state_of (loadDatabase db) = Some db' -> root_map db'.
Proof.
  intros Hempty Hfiles Hr.
  destruct db as [d r nb [m bk t]]. unfold files_hold_maps, root_map in *.
  pose proof (fun s v => Hfiles MainFile s v (or_introl eq_refl)) as Hmain.
  pose proof (fun s v => Hfiles BackupFile s v (or_intror eq_refl)) as Hbak.
  clear Hfiles. simpl in *.
  unfold loadDatabase, load_from_backup, save, createBackup, stringifyData,
    validateData, parseData, JSON_parse_or_raise, try_catch, bind, ret, throw,
    existsSync, readFileSync, writeFileSync, moveSync, set_disk, set_data,
    this_data, this_readable; simpl.
  destruct m as [m|], bk as [bk|]; simpl;
    repeat match goal with
    | |- context [String.eqb ?s EmptyString] =>
        destruct (String.eqb_spec s EmptyString); subst; simpl
    | |- context [JSON_parse ?s] => destruct (JSON_parse s) eqn:?; simpl
    end;
    intros [= <-]; simpl; eauto; congruence.
Qed.
End RootInvariant.

Section RootTheorem.
Context {P : Platform}.

(** C7, amended: after construction over a folder whose main and backup
    files, when they hold JSON, hold a JSON object, the root of the
    document is a Map; and every operation (set, delete, deleteAll, push,
    unpush, setByPriority, delByPriority) started on a Map root leaves a
    Map root, whether it returns or raises. *)
Theorem root_stays_map (options : Options) (folder : FS) :
  JSON_parse EmptyString = None -> files_hold_maps folder ->
  (forall db, state_of (new_LumeDB options folder) = Some db -> root_map db) /\
  (forall o db db', root_map db -> state_of (run o db) = Some db' -> root_map db').
Proof.
  intros Hempty Hfiles. split.
  - intros db. unfold new_LumeDB, initializeDatabase.
    apply loadDatabase_root; auto. reflexivity.
  - intros o. apply keeps_root_run.
Qed.

(** On a value that is present, truthy and not a Sequence, the four array
    operations raise their error before anything is written. *)
Lemma array_ops_reject_truthy (db : LumeDB) (key : string) (w x : value) (n : Z) :
  get key db = Ok (Some w) db -> truthy w = true -> is_sequence w = false ->
  push key x db = Throw (Error "Target is not an array") db /\
  unpush key x db = Throw (Error "Target is not an array") db /\
  setByPriority key x n db = Throw (Error "Target is not an array") db /\
  delByPriority key n db = Throw (Error "Target is not an array") db.
Proof.
  intros Hg Ht Hs.
  unfold push, unpush, setByPriority, delByPriority, bind.
  rewrite Hg. unfold or_empty_array. rewrite Ht.
  destruct w; try discriminate; repeat split.
Qed.
End RootTheorem.

(** ** Concrete runs on the reference platform *)

Section Runs.
#[local] Existing Instance ref_platform.

Let one := VNum 1.

(** Witness of C1: with a main file and a backup file that both hold the
    text [{], construction raises the validation error. *)
Lemma construction_fails_on_invalid_backup_run :
  exists db,
    new_LumeDB (mkOptions false false) (mkFS (Some "{") (Some "{") None)
    = Throw (Error "Invalid JSON format") db.
Proof.
  apply (construction_fails_on_invalid_backup (mkOptions false false)
           (Some "{") "{" None).
  - reflexivity.
  - intros m [= <-]. reflexivity.
Defined.

(** C3: with pruning enabled, [set("a.b.c", 1)] then [delete("a.b.c")]
    leaves the emptied Maps in place: the document is [{a: {b: {}}}] and
    [has("a")] is true. *)
Theorem pruning_leaves_emptied_ancestors :
  exists db,
    (set "a.b.c" one ;; delete "a.b.c" ;; has "a") (fresh true) = Ok true db /\
    data db = VObj [("a", VObj [("b", VObj [])])].
Proof. eexists; split; vm_compute; reflexivity. Qed.

(** With two segments the loop reaches the parent and prunes it. *)
Example pruning_two_segments :
  exists db,
    (set "a.b" one ;; delete "a.b" ;; has "a") (fresh true) = Ok false db /\
    data db = VObj [].
Proof. eexists; split; vm_compute; reflexivity. Qed.

(** With four segments the loop reads a property of undefined. *)
Example pruning_four_segments :
  exists db,
    (set "a.b.c.d" one ;; delete "a.b.c.d") (fresh true) = Throw TypeError db /\
    data db = VObj [("a", VObj [("b", VObj [("c", VObj [])])])].
Proof. eexists; split; vm_compute; reflexivity. Qed.

(** Without pruning the emptied Map stays, as intended. *)
Example no_pruning :
  exists db,
    (set "a.b.c" one ;; delete "a.b.c" ;; get "a.b") (fresh false)
    = Ok (Some (VObj [])) db.
Proof. eexists; vm_compute; reflexivity. Qed.

(** Witness of C2: on a medium that tears the temporary file, the save of
    [{a: 0}] raises and the main file still holds [{}]. *)
Lemma save_failed_validation_run :
  let db := mkDB (VObj [("a", VNum 0)]) false false (mkFS (Some "{}") None None) in
  exists db',
    save (P := torn_platform) db = Throw (Error "Invalid JSON format") db' /\
    main_file (disk db') = Some "{}" /\
    backup_file (disk db') = None /\
    data db' = data db.
Proof.
  intros db.
  apply (save_failed_validation_keeps_main (P := torn_platform) db).
  reflexivity.
Defined.

(** Counterexample to C4: under a scalar the round trip fails, [set]
    raises. *)
Lemma round_trip_fails_under_scalar :
  ~ round_trip (holding (VObj [("a", VNum 5)])) "a.b" one.
Proof. intros (db' & Hset & _). vm_compute in Hset. discriminate. Qed.

(** C5: on a falsy scalar the array operations do not raise; they start
    from an empty Sequence and overwrite the scalar. *)
Theorem array_ops_overwrite_falsy_scalars :
  (exists db,
     push "a" one (holding (VObj [("a", VNum 0)])) = Ok (VArr [Some one] []) db /\
     data db = VObj [("a", VArr [Some one] [])]) /\
  (exists db,
     unpush "a" one (holding (VObj [("a", VBool false)])) = Ok (VArr [] []) db /\
     data db = VObj [("a", VArr [] [])]) /\
  (exists db,
     setByPriority "a" one 1 (holding (VObj [("a", VStr EmptyString)]))
     = Ok (VArr [Some one] []) db /\
     data db = VObj [("a", VArr [Some one] [])]) /\
  (exists db,
     delByPriority "a" 1 (holding (VObj [("a", VNull)])) = Ok (VArr [] []) db /\
     data db = VObj [("a", VArr [] [])]).
Proof. repeat split; eexists; split; vm_compute; reflexivity. Qed.

(** Witness of C6: the backup holds [{"x":1}] and the main file holds
    [{]. *)
Lemma backup_recovery_run :
  exists db,
    new_LumeDB (mkOptions false false) (mkFS (Some "{") (Some x_is_1) None)
    = Ok tt db /\
    get "x" db = Ok (Some (VNum 1)) db /\
    main_file (disk db) = Some x_is_1 /\
    JSON_parse x_is_1 = JSON_parse x_is_1.
Proof.
  exact (backup_recovery (mkOptions false false) "{" None
           eq_refl eq_refl eq_refl eq_refl).
Defined.

(** Counterexample to C7: a main file that holds a JSON array makes the
    root a Sequence. *)
Lemma root_not_map_after_construction :
  ~ root_is_map_after_construction (mkOptions false false)
      (mkFS (Some "[1]") None None).
Proof.
  intros H. specialize (H _ eq_refl). vm_compute in H. discriminate.
Qed.

(** Witness of C7: construction over a main file that holds [{"x":1}],
    then any operation. *)
Lemma root_stays_map_run :
  (forall db,
     state_of (new_LumeDB (mkOptions false false) (mkFS (Some x_is_1) None None))
     = Some db -> root_map db) /\
  (forall o db db', root_map db -> state_of (run o db) = Some db' -> root_map db').
Proof.
  apply (root_stays_map (mkOptions false false) (mkFS (Some x_is_1) None None)).
  - reflexivity.
  - intros f s v _ Hs Hv. destruct f; try discriminate Hs.
    injection Hs as <-. vm_compute in Hv. injection Hv as <-. reflexivity.
Defined.



(** Counterexample to C9: [a] holds 5; [set("a.b", 1)] does not replace it
    by a Map. *)
Lemma scalar_not_overwritten :
  ~ overwrites_a (holding (VObj [("a", VNum 5)])) one.
Proof. intros (db' & Hset & _). vm_compute in Hset. discriminate. Qed.

(** Witness of C9: [a] holds 5. *)
Lemma set_under_scalar_run :
  set "a.b" one (holding (VObj [("a", VNum 5)]))
  = Throw TypeError (holding (VObj [("a", VNum 5)])).
Proof.
  apply (set_under_scalar_raises (holding (VObj [("a", VNum 5)]))
           [("a", VNum 5)] (VNum 5) one); reflexivity.
Defined.
End Runs.

(** ** Paths that are composed *)

Lemma split_dot_app (p q : string) :
  split_dot (dot p q) = split_dot p ++ split_dot q.
Proof.
  unfold dot. induction p as [|c p IH]; simpl.
  - reflexivity.
  - destruct (Ascii.eqb c "."); [now rewrite IH|].
    rewrite IH. pose proof (split_dot_nonempty p) as Hne.
    destruct (split_dot p); [contradiction|reflexivity].
Qed.


Lemma last_app {A : Type} (l1 l2 : list A) (d : A) :
  l2 <> [] -> last (l1 ++ l2) d = last l2 d.
Proof.
  intros H2. induction l1 as [|a l1 IH]; simpl; [reflexivity|].
  rewrite IH. destruct (l1 ++ l2) eqn:E; [|reflexivity].
  apply app_eq_nil in E. now destruct E.
Qed.

Lemma pop_app (l1 l2 : list string) :
  l2 <> [] -> pop (l1 ++ l2) = (l1 ++ fst (pop l2), snd (pop l2)).
Proof.
  intros H2. unfold pop; simpl. now rewrite removelast_app, last_app.
Qed.

(** The traversal of [getNestedValue], from a value that may be absent. *)
Lemma fold_get_app (l1 l2 : list string) (start : option value) :
  fold_left get_step (l1 ++ l2) start = fold_left get_step l2 (fold_left get_step l1 start).
Proof. apply fold_left_app. Qed.

Lemma fold_get_falsy (keys : list string) (v : value) :
  keys <> [] -> truthy v = false -> fold_left get_step keys (Some v) = None.
Proof.
  destruct keys as [|k keys]; [contradiction|]. intros _ Hv; simpl.
  rewrite Hv. apply fold_get_none.
Qed.

Section Composition.
Context {P : Platform}.

(** X1: [get("p.q")] is [get("q")] inside the value of [get("p")]; it is absent
    when that value is absent or falsy. *)
Theorem get_dot (db : LumeDB) (p q : string) :
  get (dot p q) db =
    Ok (match getNestedValue (data db) p with
        | Some v => if truthy v then getNestedValue v q else None
        | None => None
        end) db.
Proof.
  rewrite get_eq, split_dot_app, fold_get_app. f_equal.
  unfold getNestedValue.
  destruct (fold_left get_step (split_dot p) (Some (data db))) as [v|].
  - destruct (truthy v) eqn:Hv; [reflexivity|].
    apply fold_get_falsy; [apply split_dot_nonempty|exact Hv].
  - apply fold_get_none.
Qed.

(** The descent of [setNestedValue] raises as soon as it stands on a
    scalar. *)
Lemma set_descend_scalar (pre : list string) : forall rest lastKey obj s x,
  fold_left get_step pre (Some obj) = Some s -> is_scalar s = true ->
  set_descend obj (pre ++ rest) lastKey x = Raise TypeError.
Proof.
  induction pre as [|k pre IH]; intros rest lastKey obj s x Hf Hs.
  - simpl in Hf. injection Hf as ->.
    destruct rest; destruct s; try discriminate; reflexivity.
  - simpl in Hf.
    destruct (truthy obj) eqn:Ht; [|now rewrite fold_get_none in Hf].
    destruct (get_prop obj k) as [c|] eqn:Eg; [|now rewrite fold_get_none in Hf].
    destruct (is_scalar obj) eqn:Eo.
    + destruct obj; try discriminate; reflexivity.
    + assert (Hc : is_container obj = true) by (unfold is_container; now rewrite Eo).
      simpl. rewrite (has_property_found _ _ _ Eg Hc); simpl.
      rewrite Eg, (IH rest lastKey c s x Hf Hs). reflexivity.
Qed.

(** X2: Under a scalar: when [get(p)] is a scalar, [set("p.q", x)] raises a
    TypeError for every [q] that stays clear of the inherited members; the
    document and the files are as they were. *)
Theorem set_raises_under_scalar (db : LumeDB) (p q : string) (s x : value) :
  get p db = Ok (Some s) db -> is_scalar s = true -> own_path q = true ->
  set (dot p q) x db = Throw TypeError db.
Proof.
  intros Hg Hs _. rewrite get_eq in Hg. injection Hg as Hf.
  apply set_raise. unfold setNestedValue.
  rewrite split_dot_app, (pop_app _ _ (split_dot_nonempty q)).
  eapply set_descend_scalar; eauto.
Qed.
End Composition.

(** ** The round trip of [set] and [get] *)

Lemma arr_get_arr_set (items : list (option value)) (i : nat) (x : value) :
  arr_get (arr_set items i x) i = Some x.
Proof.
  unfold arr_get, arr_set. destruct (Nat.ltb_spec i (length items)) as [Hi|Hi].
  - destruct (nth_error items i) eqn:E.
    + now rewrite (nth_error_replace_nth _ _ _ _ E).
    + apply nth_error_None in E. lia.
  - rewrite nth_error_app2 by lia.
    rewrite nth_error_app2 by (rewrite repeat_length; lia).
    rewrite repeat_length.
    replace (i - length items - (i - length items)) with 0 by lia. reflexivity.
Qed.

Lemma assoc_get_extra_put (ps : list (string * value)) (k : string) (x : value) :
  assoc_get k (extra_put k x ps) = Some x.
Proof.
  unfold extra_put. destruct (assoc_get k ps) eqn:E.
  - eapply assoc_get_replace; eauto.
  - now apply assoc_get_app_new.
Qed.

(** [v[k] = x] on a Map or a Sequence, the [length] of a Sequence apart:
    [v[k]] is then [x]. *)
Lemma put_prop_then_get (v : value) (k : string) (x : value) :
  reaches_container v [] k = true ->
  exists v',
    put_prop v k x = Val v' /\ get_prop v' k = Some x /\
    is_container v' = true /\ truthy v' = true.
Proof.
  destruct v as [| | | |items extra|props]; simpl; try discriminate.
  - destruct (array_index k) as [i|] eqn:Ei; intros Hlen.
    + eexists; split; [reflexivity|]. simpl. rewrite Ei.
      now rewrite arr_get_arr_set.
    + destruct (String.eqb k "length") eqn:El; [discriminate|].
      eexists; split; [reflexivity|]. simpl. rewrite Ei, El.
      now rewrite assoc_get_extra_put.
  - intros _. eexists; split; [reflexivity|]. simpl.
    now rewrite assoc_get_obj_put.
Qed.

Lemma reaches_container_is_container (v : value) (keys : list string)
    (lastKey : string) :
  reaches_container v keys lastKey = true -> is_container v = true.
Proof. destruct keys, v; simpl; try discriminate; reflexivity. Qed.

Lemma reaches_container_empty (keys : list string) (lastKey : string) :
  reaches_container (VObj []) keys lastKey = true.
Proof. destruct keys; reflexivity. Qed.

Lemma array_index_length : array_index "length" = None.
Proof. reflexivity. Qed.

(** A key that a Map does not hold, or an index that a Sequence does not
    hold: [k in v] is false and [v[k] = {}] creates the property. *)
Lemma has_property_absent (v : value) (k : string) :
  is_container v = true -> get_prop v k = None ->
  (is_map v || isSome (array_index k))%bool = true ->
  has_property k v = Val false /\ reaches_container v [] k = true.
Proof.
  destruct v as [| | | |items extra|props]; simpl; try discriminate.
  - intros _. destruct (array_index k) as [i|] eqn:Ei; [|discriminate].
    intros -> _. split; [reflexivity|].
    destruct (String.eqb_spec k "length") as [->|]; [|reflexivity].
    rewrite array_index_length in Ei. discriminate.
  - intros _ -> _. split; reflexivity.
Qed.

(** [setNestedValue] through Maps and Sequences: what is missing is
    created, and the traversal of [getNestedValue] then finds the value
    that was stored. *)
Lemma set_descend_containers (keys : list string) : forall lastKey obj x,
  reaches_container obj keys lastKey = true ->
  exists obj',
    set_descend obj keys lastKey x = Val obj' /\
    is_container obj' = true /\ truthy obj' = true /\
    fold_left get_step (keys ++ [lastKey]) (Some obj') = Some x.
Proof.
  induction keys as [|k keys IH]; intros lastKey obj x Hr.
  - destruct (put_prop_then_get obj lastKey x Hr) as (v' & Hput & Hget & Hc & Ht).
    exists v'. simpl. rewrite Ht. auto.
  - pose proof (reaches_container_is_container _ _ _ Hr) as Hobj.
    assert (Hstep : exists current' child,
               (let! present := has_property k obj in
                if present : bool then Val obj else put_prop obj k (VObj []))
               = Val current' /\
               get_prop current' k = Some child /\ is_container child = true /\
               is_container current' = true /\ truthy current' = true /\
               reaches_container child keys lastKey = true).
    { destruct (get_prop obj k) as [child|] eqn:Eg.
      - assert (Hchild : reaches_container child keys lastKey = true).
        { destruct obj; try discriminate; cbn [reaches_container] in Hr;
          rewrite Eg in Hr; exact Hr. }
        pose proof (reaches_container_is_container _ _ _ Hchild) as Hc.
        exists obj, child. rewrite (has_property_found _ _ _ Eg Hobj). simpl.
        destruct (get_prop_container_parent _ _ _ Eg Hc) as [_ Ht].
        repeat split; assumption.
      - assert (Hk : (is_map obj || isSome (array_index k))%bool = true).
        { destruct obj; try discriminate; cbn [reaches_container] in Hr;
          rewrite Eg in Hr; exact Hr. }
        destruct (has_property_absent _ _ Hobj Eg Hk) as [-> Hput0]. simpl.
        destruct (put_prop_then_get obj k (VObj []) Hput0)
          as (v' & -> & Hget & Hc & Ht).
        exists v', (VObj []). repeat split; auto.
        apply reaches_container_empty. }
    destruct Hstep as (current' & child & Hcur & Eg & Hc & Hcc & Ht & Hchild).
    destruct (IH lastKey child x Hchild) as (child' & Hset & _ & _ & Hget).
    exists (prop_replace current' k child').
    destruct (prop_replace_container current' k child') as (Hpc & Hpt & _).
    split; [|split; [now rewrite Hpc|split; [now rewrite Hpt|]]].
    + change (set_descend obj (k :: keys) lastKey x)
        with (let! present := has_property k obj in
              let! current'0 :=
                (if present : bool then Val obj else put_prop obj k (VObj [])) in
              match get_prop current'0 k with
              | Some child0 =>
                  let! child'0 := set_descend child0 keys lastKey x in
                  Val (prop_replace current'0 k child'0)
              | None => Raise TypeError
              end).
      destruct (has_property k obj) as [present| |]; simpl in Hcur |- *;
        try discriminate.
      rewrite Hcur. simpl. rewrite Eg, Hset. reflexivity.
    + simpl. rewrite Hpt, Ht, (get_prop_replace _ _ _ _ Eg Hc). exact Hget.
Qed.

Section RoundTrip.
Context {P : Platform}.

(** C4, amended.  For a path no segment of which names a member of
    Object.prototype:
    - when the descent of [set] meets Maps and Sequences only (what is
      missing is created; a Sequence is entered by a property it holds or
      by an array index) and does not end on the [length] of a Sequence,
      [set(P, V)] stores [V] and [get(P)] then returns [V]; [set] itself
      returns [V], or its save raises;
    - when a proper prefix [p] of the path holds a scalar, [set(P, V)]
      raises a TypeError and the instance is as it was. *)
Theorem set_then_get (db : LumeDB) (key : string) (x : value) :
  own_path key = true ->
  (settable (data db) key = true ->
   exists db',
     (set key x db = Ok x db' \/
      set key x db = Throw (Error "Invalid JSON format") db') /\
     get key db' = Ok (Some x) db') /\
  (forall p q s,
     key = dot p q -> get p db = Ok (Some s) db -> is_scalar s = true ->
     set key x db = Throw TypeError db).
Proof.
  intros _. split.
  - unfold settable. intros Hr.
    destruct (set_descend_containers _ _ _ x Hr) as (obj' & Hset & _ & _ & Hget).
    rewrite <- split_dot_pop in Hget.
    assert (Hs : setNestedValue (data db) key x = Val obj').
    { unfold setNestedValue. destruct (pop (split_dot key)); exact Hset. }
    destruct (set_eq db key x obj' Hs) as (db' & Hd & Hres).
    exists db'; split; [exact Hres|].
    rewrite get_eq, Hd, Hget. reflexivity.
  - intros p q s -> Hg Hs. rewrite get_eq in Hg. injection Hg as Hf.
    apply set_raise. unfold setNestedValue.
    rewrite split_dot_app, (pop_app _ _ (split_dot_nonempty q)).
    eapply set_descend_scalar; eauto.
Qed.
End RoundTrip.

Section RoundTripRuns.
#[local] Existing Instance ref_platform.

(** Witness of C4: a path through the Sequence at [l] that creates the Map
    at its index 1, and a path under the number at [n]. *)
Lemma set_then_get_run :
  let db := holding (VObj [("l", VArr [Some (VObj [])] []); ("n", VNum 5)]) in
  (exists db',
     (set "l.1.x" (VNum 1) db = Ok (VNum 1) db' \/
      set "l.1.x" (VNum 1) db = Throw (Error "Invalid JSON format") db') /\
     get "l.1.x" db' = Ok (Some (VNum 1)) db') /\
  set (dot "n" "b") (VNum 1) db = Throw TypeError db.
Proof.
  intros db. split.
  - exact (proj1 (set_then_get db "l.1.x" (VNum 1) eq_refl) eq_refl).
  - exact (proj2 (set_then_get db (dot "n" "b") (VNum 1) eq_refl)
             "n" "b" (VNum 5) eq_refl eq_refl eq_refl).
Defined.
End RoundTripRuns.

(** ** What [set] leaves alone *)

Section AssocOther.
Context {A : Type}.
Implicit Types (ps : list (string * A)) (k : string) (x : A).

Lemma assoc_get_replace_other ps k k' x :
  k' <> k -> assoc_get k' (assoc_replace k x ps) = assoc_get k' ps.
Proof.
  intros Hk. induction ps as [|[k0 y] ps IH]; simpl; [reflexivity|].
  destruct (String.eqb_spec k k0) as [->|Hk0]; simpl.
  - apply String.eqb_neq in Hk. now rewrite Hk.
  - now rewrite IH.
Qed.

Lemma assoc_get_insert_index_other ps k k' x i :
  k' <> k -> assoc_get k' (insert_index i k x ps) = assoc_get k' ps.
Proof.
  intros Hk. apply String.eqb_neq in Hk.
  induction ps as [|[k0 y] ps IH]; simpl.
  - now rewrite Hk.
  - destruct (array_index k0) as [j|]; simpl.
    + destruct (j <? i)%nat; simpl; [now rewrite IH|now rewrite Hk].
    + now rewrite Hk.
Qed.

Lemma assoc_get_app_other ps k k' x :
  k' <> k -> assoc_get k' (ps ++ [(k, x)]) = assoc_get k' ps.
Proof.
  intros Hk. apply String.eqb_neq in Hk.
  induction ps as [|[k0 y] ps IH]; simpl; [now rewrite Hk|].
  now rewrite IH.
Qed.

Lemma assoc_get_obj_put_other ps k k' x :
  k' <> k -> assoc_get k' (obj_put k x ps) = assoc_get k' ps.
Proof.
  intros Hk. unfold obj_put. destruct (assoc_get k ps).
  - now apply assoc_get_replace_other.
  - destruct (array_index k).
    + now apply assoc_get_insert_index_other.
    + now apply assoc_get_app_other.
Qed.



Lemma assoc_get_remove_unique ps k :
  unique_keys ps = true -> assoc_get k (assoc_remove k ps) = None.
Proof.
  induction ps as [|[k0 y] ps IH]; simpl; [reflexivity|].
  intros Hu. apply andb_prop in Hu as [Hk0 Hu].
  destruct (String.eqb_spec k k0) as [->|Hk]; simpl.
  - destruct (assoc_get k0 ps); [discriminate|reflexivity].
  - apply String.eqb_neq in Hk. rewrite Hk. auto.
Qed.
End AssocOther.

(** A descent from a Map changes the property of its first key only. *)
Lemma set_descend_frame (keys : list string) (lastKey : string)
    (props : list (string * value)) (x obj' : value) :
  set_descend (VObj props) keys lastKey x = Val obj' ->
  exists props', obj' = VObj props' /\
    forall k', k' <> hd lastKey keys -> assoc_get k' props' = assoc_get k' props.
Proof.
  destruct keys as [|k rest]; simpl.
  - intros [= <-]. eexists; split; [reflexivity|].
    intros k' Hk. now apply assoc_get_obj_put_other.
  - destruct (isSome (assoc_get k props)); simpl.
    + destruct (assoc_get k props); [|discriminate].
      destruct (set_descend v rest lastKey x); simpl; try discriminate.
      intros [= <-]. eexists; split; [reflexivity|].
      intros k' Hk. now apply assoc_get_replace_other.
    + destruct (assoc_get k (obj_put k (VObj []) props)); [|discriminate].
      destruct (set_descend v rest lastKey x); simpl; try discriminate.
      intros [= <-]. eexists; split; [reflexivity|].
      intros k' Hk.
      rewrite assoc_get_replace_other by exact Hk.
      now apply assoc_get_obj_put_other.
Qed.

Lemma hd_pop (l : list string) :
  l <> [] -> hd (snd (pop l)) (fst (pop l)) = hd EmptyString l.
Proof.
  intros Hl. rewrite (app_removelast_last EmptyString Hl) at 3.
  unfold pop; simpl. now destruct (removelast l).
Qed.

Lemma set_descend_keeps_maps (keys : list string) : forall lastKey obj x obj',
  maps_along obj keys = true -> set_descend obj keys lastKey x = Val obj' ->
  maps_along obj' keys = true.
Proof.
  induction keys as [|k keys IH]; intros lastKey obj x obj' Hm;
    destruct obj as [| | | | |props]; try discriminate; simpl in Hm; simpl.
  - now intros [= <-].
  - destruct (assoc_get k props) as [child|] eqn:Eg; simpl.
    + rewrite Eg.
      destruct (set_descend child keys lastKey x) as [child'| |] eqn:Es; simpl;
        try discriminate.
      intros [= <-]. simpl. rewrite (assoc_get_replace _ _ _ _ Eg).
      eapply IH; eauto.
    + rewrite assoc_get_obj_put.
      destruct (set_descend (VObj []) keys lastKey x) as [child'| |] eqn:Es; simpl;
        try discriminate.
      intros [= <-]. simpl.
      rewrite (assoc_get_replace _ _ _ _ (assoc_get_obj_put props k (VObj []))).
      eapply IH; eauto. apply maps_along_empty.
Qed.

Section SetFacts.
Context {P : Platform}.

(** The state that [set] leaves: the document is the one that
    [setNestedValue] returned, or the old one when it raised. *)
Lemma set_state (db db' : LumeDB) (key : string) (x : value) :
  state_of (set key x db) = Some db' ->
  (setNestedValue (data db) key x = Val (data db')) \/
  (db' = db /\ exists e, setNestedValue (data db) key x = Raise e).
Proof.
  unfold set, bind at 1, this_data. unfold bind at 1, lift.
  destruct (setNestedValue (data db) key x) as [obj'|e|]; simpl.
  - unfold bind at 1, set_data. unfold bind.
    rewrite save_eq; cbv zeta; simpl.
    destruct (JSON_parse _); simpl; intros [= <-]; now left.
  - intros [= <-]. right; eauto.
  - discriminate.
Qed.

(** X3: Frame of [set], on an instance as its constructor returns it (the
    document was just parsed, or is the fresh [{}]) with a Map at the root:
    where the descent of [set(P, x)] stays on Maps and Sequences and the
    traversal of [get(Q)] on properties of the document, [set(P, x)]
    leaves [get(Q)] as it was for every [Q] whose first segment is not the
    first segment of [P], whether [set] returns or its save raises. *)
Theorem set_leaves_other_keys (options : Options) (folder : FS)
    (db db' : LumeDB) (p q : string) (x : value) :
  new_LumeDB options folder = Ok tt db ->
  is_map (data db) = true ->
  settable (data db) p = true -> own_path p = true ->
  plain_walk (data db) (split_dot q) = true ->
  first_segment p <> first_segment q ->
  state_of (set p x db) = Some db' ->
  exists r, get q db = Ok r db /\ get q db' = Ok r db'.
Proof.
  intros _ Hroot _ _ _ Hdiff Hstate.
  exists (getNestedValue (data db) q). split; [reflexivity|].
  rewrite get_eq. f_equal.
  destruct (set_state _ _ _ _ Hstate) as [Hset|[-> _]]; [|reflexivity].
  destruct (data db) as [| | | | |props]; try discriminate.
  unfold setNestedValue in Hset.
  pose proof (hd_pop _ (split_dot_nonempty p)) as Hhd.
  destruct (pop (split_dot p)) as [keys lastKey]; simpl in Hhd.
  destruct (set_descend_frame _ _ _ _ _ Hset) as (props' & -> & Hother).
  unfold getNestedValue, first_segment in *.
  pose proof (split_dot_nonempty q) as Hq.
  destruct (split_dot q) as [|k' rest]; [contradiction|]. simpl in *.
  rewrite Hother; [reflexivity|]. rewrite Hhd. auto.
Qed.

(** X4: Last write wins: after a [set(P, x1)] along Maps, [set(P, x2)] stores
    [x2] and [get(P)] returns [x2]. *)
Theorem set_overwrites (db db1 : LumeDB) (p : string) (x1 x2 : value) :
  maps_along (data db) (fst (pop (split_dot p))) = true ->
  own_path p = true ->
  state_of (set p x1 db) = Some db1 ->
  exists db2,
    (set p x2 db1 = Ok x2 db2 \/
     set p x2 db1 = Throw (Error "Invalid JSON format") db2) /\
    get p db2 = Ok (Some x2) db2.
Proof.
  intros Hm _ Hstate.
  assert (Hm1 : maps_along (data db1) (fst (pop (split_dot p))) = true).
  { destruct (set_state _ _ _ _ Hstate) as [Hset|[-> _]]; [|exact Hm].
    unfold setNestedValue in Hset.
    destruct (pop (split_dot p)) as [keys lastKey]; simpl in *.
    eapply set_descend_keeps_maps; eauto. }
  destruct (set_descend_maps _ (snd (pop (split_dot p))) _ x2 Hm1)
    as (obj' & Hset & _ & Hget).
  rewrite <- split_dot_pop in Hget.
  assert (Hs : setNestedValue (data db1) p x2 = Val obj').
  { unfold setNestedValue. destruct (pop (split_dot p)); exact Hset. }
  destruct (set_eq db1 p x2 obj' Hs) as (db2 & Hd & Hres).
  exists db2; split; [exact Hres|].
  rewrite get_eq, Hd, Hget. reflexivity.
Qed.
End SetFacts.

(** ** Deleting *)

Lemma well_formed_assoc_get (ps : list (string * value)) (k : string) (c : value) :
  forallb (fun kx => well_formed (snd kx)) ps = true ->
  assoc_get k ps = Some c -> well_formed c = true.
Proof.
  induction ps as [|[k0 y] ps IH]; simpl; [discriminate|].
  intros Hall. apply andb_prop in Hall as [Hy Hall].
  destruct (String.eqb k k0); [now intros [= <-]|auto].
Qed.

Lemma well_formed_get_prop (v c : value) (k : string) :
  well_formed v = true -> get_prop v k = Some c -> well_formed c = true.
Proof.
  destruct v; simpl; try discriminate.
  - intros _. destruct (array_index k).
    + destruct (String.get n s); [now intros [= <-]|discriminate].
    + destruct (String.eqb k "length"); [now intros [= <-]|discriminate].
  - intros Hw. apply andb_prop in Hw as [Hw Hextra].
    apply andb_prop in Hw as [Hitems _].
    destruct (array_index k) as [i|].
    + unfold arr_get. destruct (nth_error items i) as [[x|]|] eqn:E; try discriminate.
      intros [= <-]. apply nth_error_In in E.
      rewrite forallb_forall in Hitems. exact (Hitems _ E).
    + destruct (String.eqb k "length"); [now intros [= <-]|].
      now apply well_formed_assoc_get.
  - intros Hw. apply andb_prop in Hw as [_ Hprops].
    now apply well_formed_assoc_get.
Qed.

Lemma well_formed_fold (keys : list string) : forall v t,
  well_formed v = true -> fold_left get_step keys (Some v) = Some t ->
  well_formed t = true.
Proof.
  induction keys as [|k keys IH]; simpl; intros v t Hw Hf.
  - congruence.
  - destruct (truthy v); [|now rewrite fold_get_none in Hf].
    destruct (get_prop v k) as [c|] eqn:Eg; [|now rewrite fold_get_none in Hf].
    eapply IH; [|exact Hf]. eapply well_formed_get_prop; eauto.
Qed.

Lemma arr_get_unset (items : list (option value)) (i : nat) :
  arr_get (arr_unset items i) i = None.
Proof.
  unfold arr_get, arr_unset. revert i.
  induction items as [|h t IH]; intros [|i]; simpl; auto.
Qed.

(** In a well-formed container, the property that was deleted is gone. *)
Lemma delete_prop_removes (t t' : value) (k : string) :
  well_formed t = true -> is_container t = true ->
  delete_prop t k = Val t' -> get_prop t' k = None.
Proof.
  destruct t; try discriminate; simpl; intros Hw _.
  - apply andb_prop in Hw as [Hw _]. apply andb_prop in Hw as [_ Hu].
    destruct (array_index k) as [i|] eqn:Ei.
    + intros [= <-]. simpl. rewrite Ei. apply arr_get_unset.
    + destruct (String.eqb k "length") eqn:El; [discriminate|].
      intros [= <-]. simpl. rewrite Ei, El. now apply assoc_get_remove_unique.
  - apply andb_prop in Hw as [Hu _].
    intros [= <-]. simpl. now apply assoc_get_remove_unique.
Qed.

(** What [delete target[lastKey]] can be applied to without a raise, when
    the property is there. *)
Lemma delete_prop_container (t t' c : value) (k : string) :
  get_prop t k = Some c -> delete_prop t k = Val t' -> is_container t = true.
Proof.
  destruct t; simpl; try discriminate; auto.
  intros ->. discriminate.
Qed.

Lemma getNestedValue_pop (obj : value) (path : string) :
  getNestedValue obj path =
    get_step (fold_left get_step (fst (pop (split_dot path))) (Some obj))
      (snd (pop (split_dot path))).
Proof.
  unfold getNestedValue. rewrite (split_dot_pop path) at 1.
  now rewrite fold_get_app.
Qed.

Section Deleting.
Context {P : Platform}.

(** [deleteNestedValue] without pruning, in one equation. *)
Lemma deleteNestedValue_plain (db : LumeDB) (path : string) :
  noBlankData db = false ->
  deleteNestedValue path db =
    let keys := fst (pop (split_dot path)) in
    let lastKey := snd (pop (split_dot path)) in
    match fold_left get_step keys (Some (data db)) with
    | Some target =>
        if (truthy target && isSome (get_prop target lastKey))%bool then
          match delete_prop target lastKey with
          | Val target' =>
              Ok true (mkDB (store_at (data db) keys target')
                         (readable db) (noBlankData db) (disk db))
          | Raise e => Throw e db
          | Outside => Beyond
          end
        else Ok false db
    | None => Ok false db
    end.
Proof.
  intros Hb. unfold deleteNestedValue.
  destruct (pop (split_dot path)) as [keys lastKey]; simpl.
  unfold bind at 1, this_data.
  destruct (fold_left get_step keys (Some (data db))) as [t|]; [|reflexivity].
  destruct (truthy t && isSome (get_prop t lastKey))%bool; [|reflexivity].
  unfold bind, lift, set_data, this_noBlankData, ret.
  destruct (delete_prop t lastKey); simpl; try reflexivity.
  now rewrite Hb.
Qed.

(** Where [has] is false, [deleteNestedValue] returns false at once. *)
Lemma deleteNestedValue_absent (db : LumeDB) (path : string) :
  getNestedValue (data db) path = None -> deleteNestedValue path db = Ok false db.
Proof.
  rewrite getNestedValue_pop. unfold deleteNestedValue.
  destruct (pop (split_dot path)) as [keys lastKey]; simpl.
  unfold bind at 1, this_data.
  destruct (fold_left get_step keys (Some (data db))) as [t|]; [|reflexivity].
  simpl. destruct (truthy t); simpl; [|reflexivity].
  now intros ->.
Qed.

(** X5: Deleting what is not there: [delete(P)] returns false when [has(P)] is
    false; the document is unchanged (and saved again). *)
Theorem delete_absent (db : LumeDB) (path : string) :
  own_path path = true ->
  has path db = Ok false db ->
  exists db',
    (delete path db = Ok false db' \/
     delete path db = Throw (Error "Invalid JSON format") db') /\
    data db' = data db.
Proof.
  intros _ Hhas. unfold has, bind, this_data, ret in Hhas.
  injection Hhas as Hnone.
  destruct (getNestedValue (data db) path) eqn:Eg; [discriminate|].
  destruct (save_outcome db) as (db' & Hd & Hsave).
  exists db'; split; [|exact Hd].
  unfold delete, bind. rewrite (deleteNestedValue_absent _ _ Eg).
  destruct Hsave as [-> | ->]; auto.
Qed.

(** X6: Deleting what is there, without pruning, on a path whose traversal
    stays on properties of the document (keys outside Object.prototype on
    Maps, array indices on Sequences): when [delete(P)] returns true,
    [has(P)] is false afterwards. *)
Theorem delete_removes (db db' : LumeDB) (path : string) :
  noBlankData db = false -> well_formed (data db) = true ->
  plain_walk (data db) (split_dot path) = true ->
  delete path db = Ok true db' ->
  has path db' = Ok false db'.
Proof.
  intros Hb Hw _. unfold delete, bind at 1.
  rewrite (deleteNestedValue_plain _ _ Hb); cbv zeta.
  unfold has, bind at 2, this_data, ret.
  pose proof (fun obj => getNestedValue_pop obj path) as Hpop. revert Hpop.
  destruct (pop (split_dot path)) as [keys lastKey]; simpl fst; simpl snd.
  intros Hpop.
  destruct (fold_left get_step keys (Some (data db))) as [t|] eqn:Ef.
  2:{ unfold bind. destruct (save db); discriminate. }
  destruct (truthy t && isSome (get_prop t lastKey))%bool eqn:Ec.
  2:{ unfold bind. destruct (save db); discriminate. }
  apply andb_prop in Ec as [Ht Hsome].
  destruct (get_prop t lastKey) as [c|] eqn:Eg; [|discriminate].
  destruct (delete_prop t lastKey) as [t'|e|] eqn:Ed; try discriminate.
  pose proof (delete_prop_container _ _ _ _ Eg Ed) as Hcont.
  unfold bind. rewrite save_eq; cbv zeta; simpl.
  destruct (JSON_parse _); [|discriminate].
  intros [= <-]. simpl. f_equal.
  rewrite Hpop, (get_store_at _ _ _ t' Ef Hcont). simpl.
  rewrite (delete_prop_removes _ _ _ (well_formed_fold _ _ _ Hw Ef) Hcont Ed).
  now destruct (truthy t').
Qed.

End Deleting.

(** ** The property key of an index *)


Lemma digits_value_numeral (d : Decimal.uint) : forall acc,
  digits_value (NilEmpty.string_of_uint d) acc = Some (uint_value d acc).
Proof.
  induction d; intros acc; simpl; try reflexivity; rewrite IHd; do 2 f_equal; lia.
Qed.

Lemma uint_value_pos (d : Decimal.uint) : forall a,
  uint_value d (Npos a) = Npos (Pos.of_uint_acc d a).
Proof.
  induction d; intros a; cbn [uint_value Pos.of_uint_acc]; try reflexivity;
    rewrite <- IHd; f_equal; lia.
Qed.

Lemma uint_value_of_uint (d : Decimal.uint) : uint_value d 0 = Pos.of_uint d.
Proof.
  induction d; cbn [uint_value Pos.of_uint]; try reflexivity;
    try (rewrite <- uint_value_pos; f_equal; lia).
  now rewrite <- IHd.
Qed.

Lemma nzhead_not_D0 (d l : Decimal.uint) : Decimal.nzhead d <> Decimal.D0 l.
Proof. induction d; simpl; try discriminate; auto. Qed.
(** The numeral of a positive number does not start with a zero. *)
Lemma to_uint_head (p : positive) (l : Decimal.uint) :
  Pos.to_uint p <> Decimal.D0 l.
Proof.
  pose proof (DecimalPos.Unsigned.to_of (Pos.to_uint p)) as H.
  rewrite DecimalPos.Unsigned.of_to in H.
  change (N.to_uint (N.pos p)) with (Pos.to_uint p) in H.
  intros E. unfold Decimal.unorm in H.
  destruct (Decimal.nzhead (Pos.to_uint p)) eqn:En;
    try (rewrite H in E; discriminate E).
  - apply (DecimalPos.Unsigned.to_uint_nonzero p). exact H.
  - exact (nzhead_not_D0 _ _ En).
Qed.

Lemma array_index_nonzero_head (c : ascii) (r : string) :
  Ascii.eqb c "0" = false ->
  array_index (String c r) =
    match digits_value (String c r) 0 with
    | Some n => if (n <? 4294967295)%N then Some (N.to_nat n) else None
    | None => None
    end.
Proof. intros Hc. unfold array_index. now rewrite Hc. Qed.

(** The key of a number that is a valid index is the canonical numeral of
    that index. *)
Lemma array_index_number_key (z : Z) :
  (0 <= z < 4294967295)%Z -> array_index (number_key z) = Some (Z.to_nat z).
Proof.
  intros Hz. destruct z as [|p|p]; [reflexivity| |lia].
  change (number_key (Z.pos p)) with (NilZero.string_of_uint (Pos.to_uint p)).
  pose proof (to_uint_head p) as Hhead.
  pose proof (DecimalPos.Unsigned.to_uint_nonnil p) as Hnil.
  assert (Hdig : digits_value (NilEmpty.string_of_uint (Pos.to_uint p)) 0 = Some (Npos p)).
  { rewrite digits_value_numeral, uint_value_of_uint.
    now rewrite DecimalPos.Unsigned.of_to. }
  assert (Hlt : (N.pos p <? 4294967295)%N = true) by (apply N.ltb_lt; lia).
  destruct (Pos.to_uint p) as [|l|l|l|l|l|l|l|l|l|l] eqn:Ep;
    [now destruct Hnil | now destruct (Hhead l) | ..];
    unfold NilZero.string_of_uint;
    cbn [NilEmpty.string_of_uint] in Hdig |- *;
    (rewrite array_index_nonzero_head by reflexivity);
    rewrite Hdig, Hlt; reflexivity.
Qed.

(** The key of a negative number is no index, and is not [length]. *)
Lemma array_index_negative_key (z : Z) :
  (z < 0)%Z ->
  array_index (number_key z) = None /\ String.eqb (number_key z) "length" = false.
Proof.
  intros Hz. destruct z as [|p|p]; try lia.
  change (number_key (Z.neg p))
    with (String "-" (NilZero.string_of_uint (Pos.to_uint p))).
  split; reflexivity.
Qed.

(** ** Array operations on a Sequence that is there *)

Lemma replace_nth_length {A : Type} (i : nat) (x : A) (l : list A) :
  length (replace_nth i x l) = length l.
Proof. revert i; induction l as [|h t IH]; intros [|i]; simpl; auto. Qed.

Lemma replace_nth_other {A : Type} (i j : nat) (x : A) (l : list A) :
  j <> i -> nth_error (replace_nth i x l) j = nth_error l j.
Proof.
  revert i j; induction l as [|h t IH]; intros [|i] [|j] H; simpl; auto.
  contradiction.
Qed.

(** [a[i] = x] on the items: the slot holds [x], the length is the larger
    of the old length and [i + 1], the other slots of the array are as they
    were, and the slots between the old end and [i] are holes. *)
Lemma arr_set_facts (items : list (option value)) (i : nat) (x : value) :
  nth_error (arr_set items i x) i = Some (Some x) /\
  length (arr_set items i x) = Nat.max (length items) (S i) /\
  (forall j, j <> i -> j < length items ->
     nth_error (arr_set items i x) j = nth_error items j) /\
  (forall j, length items <= j < i -> nth_error (arr_set items i x) j = Some None).
Proof.
  unfold arr_set. destruct (Nat.ltb_spec i (length items)) as [Hi|Hi].
  - repeat split.
    + destruct (nth_error items i) eqn:E.
      * eapply nth_error_replace_nth; eauto.
      * apply nth_error_None in E. lia.
    + rewrite replace_nth_length. lia.
    + intros j Hj _. now apply replace_nth_other.
    + intros j Hj. lia.
  - repeat split.
    + rewrite nth_error_app2 by lia.
      rewrite nth_error_app2 by (rewrite repeat_length; lia).
      rewrite repeat_length.
      replace (i - length items - (i - length items)) with 0 by lia. reflexivity.
    + rewrite !length_app, repeat_length. simpl. lia.
    + intros j _ Hj. now rewrite nth_error_app1 by lia.
    + intros j Hj. rewrite nth_error_app2 by lia.
      rewrite nth_error_app1 by (rewrite repeat_length; lia).
      apply nth_error_repeat. lia.
Qed.


Section FoundSequence.
Context {P : Platform}.

(** [set] on a path where [get] finds a container stores the new value at
    the same place. *)
Lemma set_where_found (db : LumeDB) (key : string) (old new : value) :
  fold_left get_step (split_dot key) (Some (data db)) = Some old ->
  is_container old = true ->
  exists db',
    (set key new db = Ok new db' \/
     set key new db = Throw (Error "Invalid JSON format") db') /\
    get key db' = Ok (Some new) db'.
Proof.
  intros Hfound Hold.
  assert (Hset : setNestedValue (data db) key new
                 = Val (store_at (data db) (split_dot key) new)).
  { unfold setNestedValue.
    rewrite (split_dot_pop key) in Hfound |- * at 2.
    destruct (pop (split_dot key)) as [keys lastKey]; simpl in *.
    eapply set_descend_found; eauto. }
  destruct (set_eq db key new _ Hset) as (db' & Hd & Hres).
  exists db'. split; [exact Hres|].
  rewrite get_eq, Hd. erewrite get_store_at; eauto.
Qed.

(** The array that was found is mutated in place, then [set] is called
    with it. *)
Lemma in_place_then_set (db : LumeDB) (key : string) (old new : value) :
  fold_left get_step (split_dot key) (Some (data db)) = Some old ->
  is_container old = true -> is_container new = true ->
  exists db',
    ((in_place key (Some old) new ;; set key new ;; ret new) db = Ok new db' \/
     (in_place key (Some old) new ;; set key new ;; ret new) db
     = Throw (Error "Invalid JSON format") db') /\
    get key db' = Ok (Some new) db'.
Proof.
  intros Hfound Hold Hnew.
  set (db1 := mkDB (store_at (data db) (split_dot key) new)
                (readable db) (noBlankData db) (disk db)).
  assert (Hfound1 : fold_left get_step (split_dot key) (Some (data db1)) = Some new)
    by (simpl; eapply get_store_at; eauto).
  destruct (set_where_found db1 key new new Hfound1 Hnew) as (db' & Hres & Hget).
  exists db'. split; [|exact Hget].
  assert (Ht : truthy old = true) by (destruct old; try discriminate; reflexivity).
  assert (Heq : (in_place key (Some old) new ;; set key new ;; ret new) db
                = (set key new ;; ret new) db1).
  { unfold in_place. rewrite Ht. reflexivity. }
  rewrite Heq. unfold bind, ret. destruct Hres as [-> | ->]; auto.
Qed.



(** X11: [setByPriority] on a Sequence, with a priority that is a position
    (1-based, below 2^32): the element at that position is [x]; beyond the
    end the array grows and the slots in between are holes. *)
Theorem setByPriority_position (db : LumeDB) (key : string)
    (items : list (option value)) (extra : list (string * value))
    (x : value) (n : Z) :
  get key db = Ok (Some (VArr items extra)) db ->
  (1 <= n < 4294967296)%Z ->
  let i := Z.to_nat (n - 1) in
  let items' := arr_set items i x in
  (exists db',
     (setByPriority key x n db = Ok (VArr items' extra) db' \/
      setByPriority key x n db = Throw (Error "Invalid JSON format") db') /\
     get key db' = Ok (Some (VArr items' extra)) db') /\
  nth_error items' i = Some (Some x) /\
  length items' = Nat.max (length items) (S i) /\
  (forall j, j <> i -> j < length items -> nth_error items' j = nth_error items j) /\
  (forall j, length items <= j < i -> nth_error items' j = Some None).
Proof.
  intros Hget Hn i items'. split; [|apply arr_set_facts].
  rewrite get_eq in Hget. injection Hget as Hfound.
  destruct (in_place_then_set db key (VArr items extra) (VArr items' extra)
              Hfound eq_refl eq_refl) as (db' & Hres & Hget').
  exists db'. split; [|exact Hget'].
  assert (Heq : setByPriority key x n db
                = (in_place key (Some (VArr items extra)) (VArr items' extra) ;;
                   set key (VArr items' extra) ;; ret (VArr items' extra)) db).
  { unfold setByPriority, bind at 1. rewrite get_eq, Hfound. simpl or_empty_array.
    cbv iota. unfold bind at 1, lift, put_prop.
    rewrite (array_index_number_key (n - 1)) by lia. reflexivity. }
  rewrite Heq. exact Hres.
Qed.

(** X12: [setByPriority] with a priority of 0 or less does not touch the
    elements: [x] is stored under the property named by [priority - 1]. *)
Theorem setByPriority_not_positive (db : LumeDB) (key : string)
    (items : list (option value)) (extra : list (string * value))
    (x : value) (n : Z) :
  get key db = Ok (Some (VArr items extra)) db ->
  (n <= 0)%Z ->
  let array' := VArr items (extra_put (number_key (n - 1)) x extra) in
  exists db',
    (setByPriority key x n db = Ok array' db' \/
     setByPriority key x n db = Throw (Error "Invalid JSON format") db') /\
    get key db' = Ok (Some array') db'.
Proof.
  intros Hget Hn array'.
  rewrite get_eq in Hget. injection Hget as Hfound.
  destruct (in_place_then_set db key (VArr items extra) array'
              Hfound eq_refl eq_refl) as (db' & Hres & Hget').
  exists db'. split; [|exact Hget'].
  destruct (array_index_negative_key (n - 1)) as [Hidx Hlen]; [lia|].
  assert (Heq : setByPriority key x n db
                = (in_place key (Some (VArr items extra)) array' ;;
                   set key array' ;; ret array') db).
  { unfold setByPriority, bind at 1. rewrite get_eq, Hfound. simpl or_empty_array.
    cbv iota. unfold bind at 1, lift, put_prop.
    rewrite Hidx, Hlen. reflexivity. }
  rewrite Heq. exact Hres.
Qed.

(** X9: [push] where nothing is stored, along Maps: the path holds the
    one-element Sequence [[x]] afterwards. *)
Theorem push_creates (db : LumeDB) (key : string) (x : value) :
  get key db = Ok None db ->
  maps_along (data db) (fst (pop (split_dot key))) = true ->
  own_path key = true ->
  let array' := VArr [Some x] [] in
  exists db',
    (push key x db = Ok array' db' \/
     push key x db = Throw (Error "Invalid JSON format") db') /\
    get key db' = Ok (Some array') db'.
Proof.
  intros Hget Hm _ array'. rewrite get_eq in Hget. injection Hget as Hnone.
  destruct (set_descend_maps _ (snd (pop (split_dot key))) _ array' Hm)
    as (obj' & Hset & _ & Hget').
  rewrite <- split_dot_pop in Hget'.
  assert (Hs : setNestedValue (data db) key array' = Val obj').
  { unfold setNestedValue. destruct (pop (split_dot key)); exact Hset. }
  destruct (set_eq db key array' obj' Hs) as (db' & Hd & Hres).
  exists db'; split; [|rewrite get_eq, Hd, Hget'; reflexivity].
  assert (Heq : push key x db = (set key array' ;; ret array') db).
  { unfold push, bind at 1. rewrite get_eq, Hnone. reflexivity. }
  rewrite Heq. unfold bind, ret. destruct Hres as [-> | ->]; auto.
Qed.
End FoundSequence.

(** ** Loading and saving *)

Section Loading.
Context {P : Platform}.

(** [loadDatabase] over a valid main file: the document is what the file
    holds; the backup is refreshed, the main file is not written. *)
Lemma loadDatabase_valid_main (db : LumeDB) (main : string) (v : value) :
  JSON_parse EmptyString = None ->
  main_file (disk db) = Some main -> JSON_parse main = Some v ->
  loadDatabase db =
    Ok tt (mkDB v (readable db) (noBlankData db)
             (mkFS (Some main)
                (Some (stored BackupFile (JSON_stringify (indent_of db) v)))
                (temp_file (disk db)))).
Proof.
  intros Hempty Hmain Hv.
  destruct db as [d r nb [m bk t]]; simpl in *; subst m.
  unfold loadDatabase, try_catch, bind, existsSync, readFileSync, validateData,
    try_catch, bind, parseData, JSON_parse_or_raise, ret, set_data, createBackup,
    stringifyData, this_data, this_readable, writeFileSync, set_disk, indent_of;
    simpl.
  rewrite Hv; simpl.
  destruct (String.eqb_spec main EmptyString) as [->|_]; [congruence|].
  rewrite Hv. reflexivity.
Qed.

(** [loadDatabase] when the main file is missing or is not JSON, over a
    valid backup: the document is what the backup holds, and it is saved. *)
Lemma loadDatabase_from_backup (db : LumeDB) (b : string) (v : value) :
  JSON_parse EmptyString = None ->
  (forall m, main_file (disk db) = Some m -> JSON_parse m = None) ->
  backup_file (disk db) = Some b -> JSON_parse b = Some v ->
  loadDatabase db = save (mkDB v (readable db) (noBlankData db) (disk db)).
Proof.
  intros Hempty Hmain Hb Hv.
  destruct db as [d r nb [m bk t]]; simpl in *; subst bk.
  assert (Hne : String.eqb b EmptyString = false).
  { destruct (String.eqb_spec b EmptyString) as [->|_]; congruence. }
  unfold loadDatabase, load_from_backup, save, createBackup, stringifyData,
    validateData, parseData, JSON_parse_or_raise, try_catch, bind, ret, throw,
    existsSync, readFileSync, writeFileSync, moveSync, set_disk, set_data,
    this_data, this_readable; simpl.
  destruct m as [m|]; simpl.
  - rewrite (Hmain m eq_refl); simpl. rewrite Hv; simpl. rewrite Hne, Hv; simpl.
    reflexivity.
  - rewrite Hv; simpl. rewrite Hne, Hv; simpl.
    destruct (JSON_parse (stored TempFile _)) eqn:Eback; simpl; [reflexivity|].
    rewrite Hv; simpl. rewrite Hne, Hv; simpl. rewrite Eback. reflexivity.
Qed.

(** X14: A valid main file wins: whatever the document in memory and the backup
    file were, the document becomes what the main file holds, the backup is
    overwritten with its serialization, and the main file is not written.
    This branch cannot raise. *)
Theorem load_valid_main (db : LumeDB) (main : string) (v : value) :
  JSON_parse EmptyString = None ->
  main_file (disk db) = Some main -> JSON_parse main = Some v ->
  exists db',
    initializeDatabase db = Ok tt db' /\
    data db' = v /\
    main_file (disk db') = Some main /\
    backup_file (disk db')
      = Some (stored BackupFile (JSON_stringify (indent_of db) v)) /\
    temp_file (disk db') = temp_file (disk db).
Proof.
  intros Hempty Hmain Hv. unfold initializeDatabase.
  rewrite (loadDatabase_valid_main db main v Hempty Hmain Hv).
  eexists; repeat split.
Qed.

(** X15: Recovery from the backup, for every backup that holds JSON: when the
    main file is missing or is not JSON, the document becomes what the
    backup holds and is saved to the main file. *)
Theorem load_recovers_from_backup (db : LumeDB) (b : string) (v : value) :
  let bytes := stored TempFile (JSON_stringify (indent_of db) v) in
  JSON_parse EmptyString = None ->
  (forall m, main_file (disk db) = Some m -> JSON_parse m = None) ->
  backup_file (disk db) = Some b -> JSON_parse b = Some v ->
  JSON_parse bytes <> None ->
  exists db',
    initializeDatabase db = Ok tt db' /\
    data db' = v /\
    main_file (disk db') = Some bytes /\
    temp_file (disk db') = None.
Proof.
  intros bytes Hempty Hmain Hb Hv Hback. unfold initializeDatabase.
  rewrite (loadDatabase_from_backup db b v Hempty Hmain Hb Hv).
  rewrite save_eq; cbv zeta; simpl.
  change (indent_of _) with (indent_of db). fold bytes.
  destruct (JSON_parse bytes); [|contradiction].
  eexists; repeat split.
Qed.

(** X16: A location without main file and without backup: the document that is
    in memory is saved there as it is ([{}] at construction; the current
    document when [setFolder] or [setFile] moved the store). *)
Theorem load_empty_location (db : LumeDB) :
  let s := JSON_stringify (indent_of db) (data db) in
  main_file (disk db) = None -> backup_file (disk db) = None ->
  JSON_parse (stored TempFile s) <> None ->
  exists db',
    initializeDatabase db = Ok tt db' /\
    data db' = data db /\
    main_file (disk db') = Some (stored TempFile s) /\
    backup_file (disk db') = Some (stored BackupFile s) /\
    temp_file (disk db') = None.
Proof.
  intros s Hmain Hbak Hback.
  destruct db as [d r nb [m bk t]]; simpl in *; subst m bk.
  unfold initializeDatabase, loadDatabase, try_catch, bind at 1, existsSync; simpl.
  unfold bind at 1, existsSync; simpl.
  rewrite save_eq; cbv zeta; simpl. fold s.
  destruct (JSON_parse (stored TempFile s)); [|contradiction].
  eexists; repeat split.
Qed.

(** X17: A main file that is not JSON, and no backup: the document is reset to
    [{}] and saved over the main file. *)
Theorem load_invalid_main_resets (db : LumeDB) (m : string) :
  let s := JSON_stringify (indent_of db) (VObj []) in
  main_file (disk db) = Some m -> JSON_parse m = None ->
  backup_file (disk db) = None ->
  JSON_parse (stored TempFile s) <> None ->
  exists db',
    initializeDatabase db = Ok tt db' /\
    data db' = VObj [] /\
    main_file (disk db') = Some (stored TempFile s) /\
    backup_file (disk db') = Some (stored BackupFile s).
Proof.
  intros s Hmain Hm Hbak Hback.
  destruct db as [d r nb [mf bk t]]; simpl in *; subst mf bk.
  unfold initializeDatabase, loadDatabase, try_catch, bind at 1, existsSync; simpl.
  unfold bind at 1, readFileSync; simpl.
  unfold bind at 1, validateData, try_catch, bind at 1, JSON_parse_or_raise, throw.
  rewrite Hm; simpl.
  unfold bind at 1, existsSync; simpl.
  unfold bind at 1, set_data; simpl.
  rewrite save_eq; cbv zeta; simpl.
  change (JSON_stringify _ (VObj [])) with s.
  destruct (JSON_parse (stored TempFile s)); [|contradiction].
  eexists; repeat split.
Qed.

(** X18: The only error that leaves [loadDatabase], and so the constructor, is
    the validation error: no TypeError, SyntaxError or missing-file error
    reaches the caller. *)
Theorem load_raises_only_validation_error (db : LumeDB) :
  JSON_parse EmptyString = None ->
  exists db',
    initializeDatabase db = Ok tt db' \/
    initializeDatabase db = Throw (Error "Invalid JSON format") db'.
Proof.
  intros Hempty.
  destruct db as [d r nb [m bk t]].
  unfold initializeDatabase, loadDatabase, load_from_backup, save, createBackup,
    stringifyData, validateData, parseData, JSON_parse_or_raise, try_catch, bind,
    ret, throw, existsSync, readFileSync, writeFileSync, moveSync, set_disk,
    set_data, this_data, this_readable; simpl.
  destruct m as [m|], bk as [bk|]; simpl;
    repeat match goal with
    | |- context [String.eqb ?s EmptyString] =>
        destruct (String.eqb_spec s EmptyString); subst; simpl
    | |- context [JSON_parse ?s] => destruct (JSON_parse s) eqn:?; simpl
    end;
    try congruence; eexists; (left; reflexivity) || (right; reflexivity).
Qed.

(** X19: Backup and restore: after [createBackup] (what the backup timer runs),
    a store constructed over that backup, with the main file lost or
    corrupted, holds the document that was backed up. *)
Theorem backup_then_restore (db : LumeDB) (options : Options)
    (lost t : option string) :
  let s := JSON_stringify (indent_of db) (data db) in
  let s' := JSON_stringify (if opt_readable options then 2 else 0)%nat (data db) in
  JSON_parse EmptyString = None ->
  stored BackupFile s = s -> JSON_parse s = Some (data db) ->
  (forall m, lost = Some m -> JSON_parse m = None) ->
  JSON_parse (stored TempFile s') <> None ->
  exists db1 db2,
    createBackup db = Ok tt db1 /\
    new_LumeDB options (mkFS lost (backup_file (disk db1)) t) = Ok tt db2 /\
    data db2 = data db.
Proof.
  intros s s' Hempty Hmedium Hround Hlost Hback.
  assert (Hcb : createBackup db =
                Ok tt (mkDB (data db) (readable db) (noBlankData db)
                         (fs_set (disk db) BackupFile (Some s)))).
  { unfold createBackup, bind, this_data, stringifyData, this_readable, ret,
      writeFileSync, set_disk; simpl.
    change (JSON_stringify _ (data db)) with s. now rewrite Hmedium. }
  rewrite Hcb. eexists. eexists. split; [reflexivity|]. simpl.
  unfold new_LumeDB, initializeDatabase.
  rewrite (loadDatabase_from_backup _ s (data db) Hempty);
    [|exact Hlost|reflexivity|exact Hround].
  rewrite save_eq; cbv zeta; simpl. unfold indent_of; simpl. fold s'.
  destruct (JSON_parse (stored TempFile s')); [|contradiction].
  split; reflexivity.
Qed.
End Loading.

(** ** Write-through *)

Section WriteThrough.
Context {P : Platform}.

Lemma ends_synced_bind {A B : Type} (m : M A) (k : A -> M B) :
  (forall a, ends_synced (k a)) -> ends_synced (bind m k).
Proof.
  intros Hk db b db'. unfold bind.
  destruct (m db) as [a d1|e d1|]; try discriminate. apply Hk.
Qed.

Lemma ends_synced_ret {A B : Type} (m : M A) (y : B) :
  ends_synced m -> ends_synced (m ;; ret y).
Proof.
  intros Hm db b db'. unfold bind, ret.
  destruct (m db) as [a d1|e d1|] eqn:E; try discriminate.
  intros [= _ <-]. eapply Hm; eauto.
Qed.

Lemma ends_synced_throw {A : Type} (e : exn) : ends_synced (@throw A e).
Proof. intros db a db'. discriminate. Qed.

Lemma ends_synced_save : reliable -> ends_synced save.
Proof.
  intros Hrel db a db'. rewrite save_eq; cbv zeta. rewrite !Hrel.
  destruct (JSON_parse _); [|discriminate].
  intros [= _ <-]. reflexivity.
Qed.

Lemma ends_synced_set (key : string) (x : value) :
  reliable -> ends_synced (set key x).
Proof.
  intros Hrel. unfold set.
  apply ends_synced_bind; intros obj.
  apply ends_synced_bind; intros obj'.
  apply ends_synced_bind; intros _.
  apply ends_synced_ret, ends_synced_save, Hrel.
Qed.

(** X20: Write-through: on a reliable medium, when a mutating operation returns,
    the main file and the backup file both hold the serialization of the
    document in memory, and no temporary file is left. *)
Theorem write_through (o : operation) (db db' : LumeDB) :
  reliable -> run o db = Ok tt db' -> synced db'.
Proof.
  intros Hrel Hrun. cut (ends_synced (run o)); [intros Hall; exact (Hall _ _ _ Hrun)|].
  clear Hrun.
  pose proof (fun key x => ends_synced_set key x Hrel) as Hset.
  pose proof (ends_synced_save Hrel) as Hsave.
  destruct o; unfold run; apply ends_synced_ret.
  - apply Hset.
  - unfold delete. apply ends_synced_bind; intros r.
    apply ends_synced_ret, Hsave.
  - unfold deleteAll. apply ends_synced_bind; intros _.
    apply ends_synced_ret, Hsave.
  - unfold push. apply ends_synced_bind; intros found.
    destruct (or_empty_array found); try apply ends_synced_throw.
    apply ends_synced_bind; intros _. apply ends_synced_ret, Hset.
  - unfold unpush. apply ends_synced_bind; intros found.
    destruct (or_empty_array found); try apply ends_synced_throw.
    apply ends_synced_ret, Hset.
  - unfold setByPriority. apply ends_synced_bind; intros found.
    destruct (or_empty_array found); try apply ends_synced_throw.
    apply ends_synced_bind; intros array'.
    apply ends_synced_bind; intros _. apply ends_synced_ret, Hset.
  - unfold delByPriority. apply ends_synced_bind; intros found.
    destruct (or_empty_array found); try apply ends_synced_throw.
    apply ends_synced_bind; intros _. apply ends_synced_ret, Hset.
Qed.

(** X21: [setReadable] changes the serialization only: the document in memory
    is the same whether the save returns or raises, the flag is set, and on
    a reliable medium a successful call leaves both files holding the
    document under the new indent. *)
Theorem setReadable_keeps_document (db : LumeDB) (value : bool) :
  exists db',
    (setReadable value db = Ok tt db' \/
     setReadable value db = Throw (Error "Invalid JSON format") db') /\
    data db' = data db /\ readable db' = value /\
    (reliable -> setReadable value db = Ok tt db' ->
     disk db' =
       let s := JSON_stringify (if value then 2 else 0)%nat (data db) in
       mkFS (Some s) (Some s) None).
Proof.
  unfold setReadable, bind. rewrite save_eq; cbv zeta; simpl.
  unfold indent_of; simpl.
  destruct (JSON_parse _) eqn:E; eexists; (split; [auto|]);
    repeat split; intros Hrel; try discriminate.
  intros _. simpl. now rewrite !Hrel.
Qed.

(** X22: [deleteAll] empties the document: afterwards [has] is false for every
    path that stays clear of the inherited members, whether the save
    returned or raised. *)
Theorem deleteAll_empties (db : LumeDB) :
  exists db',
    (deleteAll db = Ok true db' \/
     deleteAll db = Throw (Error "Invalid JSON format") db') /\
    data db' = VObj [] /\
    forall key, own_path key = true -> has key db' = Ok false db'.
Proof.
  destruct (save_outcome (mkDB (VObj []) (readable db) (noBlankData db) (disk db)))
    as (db' & Hd & Hsave).
  exists db'. split; [|split; [exact Hd|]].
  - unfold deleteAll, bind, set_data, ret.
    destruct Hsave as [-> | ->]; auto.
  - intros key _. unfold has, bind, this_data, ret. rewrite Hd. f_equal.
    unfold getNestedValue. pose proof (split_dot_nonempty key) as Hne.
    destruct (split_dot key) as [|k rest]; [contradiction|]. simpl.
    now rewrite fold_get_none.
Qed.
End WriteThrough.

(** ** Further runs on the reference platform *)

Section MoreRuns.
#[local] Existing Instance ref_platform.

Let one := VNum 1.
Let two := VNum 2.
Let nine := VNum 9.

(** Witness of X2: Under the number 5 at [a.b], [set("a.b.c.d", 1)] raises. *)
Lemma set_raises_under_scalar_run :
  let db := holding (VObj [("a", VObj [("b", VNum 5)])]) in
  set (dot "a.b" "c.d") one db = Throw TypeError db.
Proof.
  intros db.
  apply (set_raises_under_scalar db "a.b" "c.d" (VNum 5) one); reflexivity.
Defined.

(** Witness of X3: over a main file that holds [{"x":1}], [set("a.y", 1)]
    leaves [get("x")] as it was. *)
Lemma set_leaves_other_keys_run :
  exists db db',
    new_LumeDB (mkOptions false false) (mkFS (Some x_is_1) None None) = Ok tt db /\
    state_of (set "a.y" one db) = Some db' /\
    exists r, get "x" db = Ok r db /\ get "x" db' = Ok r db'.
Proof.
  eexists. eexists. split; [lazy; reflexivity|]. split; [lazy; reflexivity|].
  apply (set_leaves_other_keys (mkOptions false false)
           (mkFS (Some x_is_1) None None) _ _ "a.y" "x" one);
    try reflexivity.
  intros H; vm_compute in H; discriminate H.
Defined.

(** Witness of X4: [set("a.b", 1)] then [set("a.b", 2)] on the empty document. *)
Lemma set_overwrites_run :
  exists db1,
    state_of (set "a.b" one (fresh false)) = Some db1 /\
    exists db2,
      (set "a.b" two db1 = Ok two db2 \/
       set "a.b" two db1 = Throw (Error "Invalid JSON format") db2) /\
      get "a.b" db2 = Ok (Some two) db2.
Proof.
  eexists. split; [lazy; reflexivity|].
  apply (set_overwrites (fresh false) _ "a.b" one two); reflexivity.
Defined.

(** Witness of X5: [delete("b")] on [{a: 1}]. *)
Lemma delete_absent_run :
  let db := holding (VObj [("a", one)]) in
  exists db',
    (delete "b" db = Ok false db' \/
     delete "b" db = Throw (Error "Invalid JSON format") db') /\
    data db' = data db.
Proof. intros db. apply (delete_absent db "b"); reflexivity. Defined.

(** Witness of X6: [delete("a.1")] on [{a: [1, 1]}], without pruning: the
    element becomes a hole. *)
Lemma delete_removes_run :
  let db := holding (VObj [("a", VArr [Some one; Some one] [])]) in
  exists db', delete "a.1" db = Ok true db' /\ has "a.1" db' = Ok false db'.
Proof.
  intros db. eexists. split; [lazy; reflexivity|].
  apply (delete_removes db _ "a.1"); reflexivity.
Defined.



(** Witness of X9: [push("users.list", 1)] on the empty document. *)
Lemma push_creates_run :
  let array' := VArr [Some one] [] in
  exists db',
    (push "users.list" one (fresh false) = Ok array' db' \/
     push "users.list" one (fresh false) = Throw (Error "Invalid JSON format") db') /\
    get "users.list" db' = Ok (Some array') db'.
Proof.
  intros array'.
  exact (push_creates (fresh false) "users.list" one eq_refl eq_refl eq_refl).
Defined.


(** Witness of X11: [setByPriority("l", 9, 3)] on [{l: [1]}]: a hole at position 2. *)
Lemma setByPriority_position_run :
  let db := holding (VObj [("l", VArr [Some one] [])]) in
  let array' := VArr [Some one; None; Some nine] [] in
  exists db',
    (setByPriority "l" nine 3 db = Ok array' db' \/
     setByPriority "l" nine 3 db = Throw (Error "Invalid JSON format") db') /\
    get "l" db' = Ok (Some array') db'.
Proof.
  intros db array'.
  refine (proj1 (setByPriority_position db "l" [Some one] [] nine 3 eq_refl _)).
  lia.
Defined.

(** Witness of X12: [setByPriority("l", 9, 0)] on [{l: [1]}]: the elements are untouched. *)
Lemma setByPriority_not_positive_run :
  let db := holding (VObj [("l", VArr [Some one] [])]) in
  let array' := VArr [Some one] [("-1", nine)] in
  exists db',
    (setByPriority "l" nine 0 db = Ok array' db' \/
     setByPriority "l" nine 0 db = Throw (Error "Invalid JSON format") db') /\
    get "l" db' = Ok (Some array') db'.
Proof.
  intros db array'.
  refine (setByPriority_not_positive db "l" [Some one] [] nine 0 eq_refl _).
  lia.
Defined.

(** Witness of X13: The four array operations on a path that holds a Map. *)
Lemma array_ops_reject_truthy_run :
  let db := holding (VObj [("a", VObj [("b", one)])]) in
  push "a" one db = Throw (Error "Target is not an array") db /\
  unpush "a" one db = Throw (Error "Target is not an array") db /\
  setByPriority "a" one 1 db = Throw (Error "Target is not an array") db /\
  delByPriority "a" 1 db = Throw (Error "Target is not an array") db.
Proof.
  intros db.
  exact (array_ops_reject_truthy db "a" (VObj [("b", one)]) one 1
           eq_refl eq_refl eq_refl).
Defined.

(** Witness of X14: A main file that holds [[1,2]], over an older backup. *)
Lemma load_valid_main_run :
  let db := mkDB (VObj []) false false (mkFS (Some "[1,2]") (Some "{}") None) in
  exists db',
    initializeDatabase db = Ok tt db' /\
    data db' = VArr [Some one; Some two] [] /\
    main_file (disk db') = Some "[1,2]" /\
    backup_file (disk db') = Some "[1,2]" /\
    temp_file (disk db') = None.
Proof.
  intros db.
  exact (load_valid_main db "[1,2]" (VArr [Some one; Some two] [])
           eq_refl eq_refl eq_refl).
Defined.

(** Witness of X15: No main file, a backup that holds [[1]]. *)
Lemma load_recovers_from_backup_run :
  let db := mkDB (VObj []) false false (mkFS None (Some "[1]") None) in
  exists db',
    initializeDatabase db = Ok tt db' /\
    data db' = VArr [Some one] [] /\
    main_file (disk db') = Some "[1]" /\
    temp_file (disk db') = None.
Proof.
  intros db.
  refine (load_recovers_from_backup db "[1]" (VArr [Some one] [])
            eq_refl _ eq_refl eq_refl _).
  - intros m H; discriminate H.
  - intros H; vm_compute in H; discriminate H.
Defined.

(** Witness of X16: The store moves to an empty location with [[1]] in memory. *)
Lemma load_empty_location_run :
  let db := mkDB (VArr [Some one] []) false false empty_folder in
  exists db',
    initializeDatabase db = Ok tt db' /\
    data db' = data db /\
    main_file (disk db') = Some "[1]" /\
    backup_file (disk db') = Some "[1]" /\
    temp_file (disk db') = None.
Proof.
  intros db.
  refine (load_empty_location db eq_refl eq_refl _).
  intros H; vm_compute in H; discriminate H.
Defined.

(** Witness of X17: A main file that holds [{], no backup, [[1]] in memory. *)
Lemma load_invalid_main_resets_run :
  let db := mkDB (VArr [Some one] []) false false (mkFS (Some "{") None None) in
  exists db',
    initializeDatabase db = Ok tt db' /\
    data db' = VObj [] /\
    main_file (disk db') = Some "{}" /\
    backup_file (disk db') = Some "{}".
Proof.
  intros db.
  refine (load_invalid_main_resets db "{" eq_refl eq_refl eq_refl _).
  intros H; vm_compute in H; discriminate H.
Defined.

(** Witness of X18: Both files hold [{]. *)
Lemma load_raises_only_validation_error_run :
  let db := mkDB (VObj []) false false (mkFS (Some "{") (Some "{") None) in
  exists db',
    initializeDatabase db = Ok tt db' \/
    initializeDatabase db = Throw (Error "Invalid JSON format") db'.
Proof.
  intros db. exact (load_raises_only_validation_error db eq_refl).
Defined.

(** Witness of X19: A backup of [[1]], then construction with the main file gone. *)
Lemma backup_then_restore_run :
  let db := mkDB (VArr [Some one] []) false false (mkFS (Some "[1]") None None) in
  exists db1 db2,
    createBackup db = Ok tt db1 /\
    new_LumeDB (mkOptions true false) (mkFS None (backup_file (disk db1)) None)
    = Ok tt db2 /\
    data db2 = data db.
Proof.
  intros db.
  refine (backup_then_restore db (mkOptions true false) None None
            eq_refl eq_refl eq_refl _ _).
  - intros m H; discriminate H.
  - intros H; vm_compute in H; discriminate H.
Defined.

(** Witness of X20: [set("a", 1)] on the empty document, on the reliable medium. *)
Lemma write_through_run :
  exists db', run (OpSet "a" one) (fresh false) = Ok tt db' /\ synced db'.
Proof.
  eexists. split; [lazy; reflexivity|].
  apply (write_through (OpSet "a" one) (fresh false)).
  - intros f s. reflexivity.
  - reflexivity.
Defined.
End MoreRuns.

(** ** Further frame and edge behaviour *)

Section MoreEdges.
Context {P : Platform}.


(** X24: The removing operations create what they do not find: on a path
    where nothing is stored, along Maps, [unpush] and [delByPriority] store
    the empty Sequence at the path. *)
Theorem removal_creates_empty_sequence (db : LumeDB) (key : string)
    (x : value) (n : Z) :
  get key db = Ok None db ->
  maps_along (data db) (fst (pop (split_dot key))) = true ->
  own_path key = true ->
  let empty := VArr [] [] in
  (exists db',
     (unpush key x db = Ok empty db' \/
      unpush key x db = Throw (Error "Invalid JSON format") db') /\
     get key db' = Ok (Some empty) db') /\
  (exists db',
     (delByPriority key n db = Ok empty db' \/
      delByPriority key n db = Throw (Error "Invalid JSON format") db') /\
     get key db' = Ok (Some empty) db').
Proof.
  intros Hget Hm _ empty. rewrite get_eq in Hget. injection Hget as Hnone.
  destruct (set_descend_maps _ (snd (pop (split_dot key))) _ empty Hm)
    as (obj' & Hset & _ & Hget').
  rewrite <- split_dot_pop in Hget'.
  assert (Hs : setNestedValue (data db) key empty = Val obj').
  { unfold setNestedValue. destruct (pop (split_dot key)); exact Hset. }
  destruct (set_eq db key empty obj' Hs) as (db' & Hd & Hres).
  assert (Hafter : get key db' = Ok (Some empty) db')
    by (rewrite get_eq, Hd, Hget'; reflexivity).
  assert (Hrun : (set key empty ;; ret empty) db = Ok empty db' \/
                 (set key empty ;; ret empty) db
                 = Throw (Error "Invalid JSON format") db').
  { unfold bind, ret. destruct Hres as [-> | ->]; auto. }
  split; exists db'; (split; [|exact Hafter]).
  - assert (Heq : unpush key x db = (set key empty ;; ret empty) db).
    { unfold unpush, bind at 1. rewrite get_eq, Hnone. reflexivity. }
    rewrite Heq. exact Hrun.
  - assert (Heq : delByPriority key n db = (set key empty ;; ret empty) db).
    { assert (Hsp : splice (n - 1) 1 [] = []).
      { unfold splice. now rewrite firstn_nil, skipn_nil. }
      unfold delByPriority, bind at 1. rewrite get_eq, Hnone.
      cbn [or_empty_array in_place]. rewrite Hsp. reflexivity. }
    rewrite Heq. exact Hrun.
Qed.
End MoreEdges.

Section EdgeRuns.
#[local] Existing Instance ref_platform.


(** Witness of X24: [unpush] and [delByPriority] on the empty document. *)
Lemma removal_creates_empty_sequence_run :
  let empty := VArr [] [] in
  (exists db',
     (unpush "l" (VNum 1) (fresh false) = Ok empty db' \/
      unpush "l" (VNum 1) (fresh false) = Throw (Error "Invalid JSON format") db') /\
     get "l" db' = Ok (Some empty) db') /\
  (exists db',
     (delByPriority "l" 1 (fresh false) = Ok empty db' \/
      delByPriority "l" 1 (fresh false) = Throw (Error "Invalid JSON format") db') /\
     get "l" db' = Ok (Some empty) db').
Proof.
  intros empty.
  exact (removal_creates_empty_sequence (fresh false) "l" (VNum 1) 1
           eq_refl eq_refl eq_refl).
Defined.
End EdgeRuns.
